(** * json-to-csv: a shallow embedding of [main.py] and its properties

    The converter reads a JSON array of records and writes a CSV table in
    one of three modes (plain, flatten, transpose).  Every function below
    is a transcription of the Python function of the same name.

    Conventions of the embedding:
    - a Python [str] is a [string] holding its UTF-8 bytes; the characters
      the program looks for (['.'], ['['], [']']) are ASCII, and the
      byte-wise order on UTF-8 text is the code-point order Python sorts by;
    - a Python [dict] is an association list in insertion order, written
      through [dict_set], which keeps the position of a key already there;
    - a Python [set] of strings is a [gset string];
    - printing, file access and exceptions are recorded by a small
      writer/exception monad [io]. *)

From Stdlib Require Import ZArith String Ascii Lia DecimalString DecimalNat.
From stdpp Require Import base option list strings gmap sorting.

Set Warnings "-register-all".

(* [simpl] may unfold string concatenation applied to a literal. *)
Local Arguments String.append : simpl nomatch.

(** ** JSON values, as [json.load] builds them *)

Inductive json : Type :=
| JNull
| JBool (b : bool)
| JInt (n : Z)
| JFloat (repr : string)   (* a float, kept as the text [repr] gives for it *)
| JStr (s : string)
| JArr (xs : list json)
| JObj (kvs : list (string * json)).

Definition is_dict (v : json) : bool := if v is JObj _ then true else false.
Definition is_list (v : json) : bool := if v is JArr _ then true else false.

(** Induction over the nesting of a value. *)
Section json_induction.
Variable P : json → Prop.
Hypothesis Hnull : P JNull.
Hypothesis Hbool : ∀ b, P (JBool b).
Hypothesis Hint : ∀ n, P (JInt n).
Hypothesis Hfloat : ∀ r, P (JFloat r).
Hypothesis Hstr : ∀ s, P (JStr s).
Hypothesis Harr : ∀ xs, Forall P xs → P (JArr xs).
Hypothesis Hobj : ∀ kvs, Forall (λ kv, P kv.2) kvs → P (JObj kvs).

Fixpoint json_nested_ind (v : json) : P v :=
  match v with
  | JNull => Hnull
  | JBool b => Hbool b
  | JInt n => Hint n
  | JFloat r => Hfloat r
  | JStr s => Hstr s
  | JArr xs =>
      Harr xs ((fix all xs : Forall P xs :=
                  match xs with
                  | [] => Forall_nil_2 P
                  | x :: xs' => Forall_cons_2 P x xs' (json_nested_ind x) (all xs')
                  end) xs)
  | JObj kvs =>
      Hobj kvs ((fix all kvs : Forall (λ kv, P kv.2) kvs :=
                   match kvs with
                   | [] => Forall_nil_2 _
                   | kv :: kvs' =>
                       Forall_cons_2 (λ kv, P kv.2) kv kvs'
                         (json_nested_ind kv.2) (all kvs')
                   end) kvs)
  end.
End json_induction.

(** ** Python dictionaries: insertion-ordered, one entry per key *)

Abbreviation dict V := (list (string * V)).

Fixpoint dict_get {V} (d : dict V) (k : string) : option V :=
  match d with
  | [] => None
  | (k', v) :: d' => if decide (k' = k) then Some v else dict_get d' k
  end.

(** [d[k] = v]: overwrite in place, or append a new entry. *)
Fixpoint dict_set {V} (d : dict V) (k : string) (v : V) : dict V :=
  match d with
  | [] => [(k, v)]
  | (k', v') :: d' =>
      if decide (k' = k) then (k', v) :: d' else (k', v') :: dict_set d' k v
  end.

Definition dict_keys {V} (d : dict V) : list string := d.*1.

(** Assigning a list of entries in turn. *)
Definition dict_update {V} (d : dict V) (items : list (string * V)) : dict V :=
  fold_left (λ d kv, dict_set d kv.1 kv.2) items d.

(** [dict(items)]. *)
Definition dict_of_items {V} (items : list (string * V)) : dict V :=
  dict_update [] items.

(** ** Strings *)

(** [str(i)] for a list index. *)
Definition str_nat (i : nat) : string := NilEmpty.string_of_uint (Nat.to_uint i).

(** [str(n)] for an integer. *)
Definition str_int (n : Z) : string := NilZero.string_of_int (Z.to_int n).

(** [c in s]. *)
Fixpoint str_in (c : ascii) (s : string) : bool :=
  match s with
  | EmptyString => false
  | String a r => if decide (a = c) then true else str_in c r
  end.

(** [s.split(c, 1)]: at most one cut, at the first [c]. *)
Fixpoint str_split1 (c : ascii) (s : string) : list string :=
  match s with
  | EmptyString => [""]
  | String a r =>
      if decide (a = c) then [""; r]
      else match str_split1 c r with
           | h :: t => String a h :: t
           | [] => []
           end
  end.

(** ** [flatten_nested_data] *)

(** [f"{parent_key}{sep}{key}" if parent_key else key] *)
Definition dict_child_key (parent_key sep key : string) : string :=
  if parent_key is "" then key else parent_key +:+ sep +:+ key.

(** [f"{parent_key}[{i}]" if parent_key else f"[{i}]"] *)
Definition list_child_key (parent_key : string) (i : nat) : string :=
  if parent_key is "" then "[" +:+ str_nat i +:+ "]"
  else parent_key +:+ "[" +:+ str_nat i +:+ "]".

(** [for i, value in enumerate(xs)], from index [i] on, gathering what each
    turn adds to a list. *)
Definition enumerate_from {A B} (body : nat → A → list B)
  : nat → list A → list B :=
  fix go (i : nat) (xs : list A) {struct xs} : list B :=
    match xs with
    | [] => []
    | value :: rest => body i value ++ go (S i) rest
    end.

Fixpoint flatten_nested_data (obj : json) (parent_key sep : string) {struct obj}
  : dict json :=
  dict_of_items
    match obj with
    | JObj kvs =>
        kvs ≫= λ kv,
          let new_key := dict_child_key parent_key sep kv.1 in
          flatten_nested_data kv.2 new_key sep
    | JArr xs =>
        enumerate_from
          (λ i value,
             let new_key := list_child_key parent_key i in
             if is_dict value || is_list value
             then flatten_nested_data value new_key sep
             else [(new_key, value)])
          0 xs
    | _ => [(parent_key, obj)]
    end.

(** ** [create_hierarchical_headers] *)

Definition create_hierarchical_headers (headers : list string)
  : list string * list string :=
  fold_left
    (λ '(top_headers, sub_headers) header,
       if str_in "." header then
         let parts := str_split1 "." header in
         (top_headers ++ [parts !!! 0], sub_headers ++ [parts !!! 1])
       else (top_headers ++ [header], sub_headers ++ [""]))
    headers ([], []).

(** ** Exceptions *)

Inductive exn : Type :=
| FileNotFoundError
| ValueError
| AttributeError
| OSError
| Exception.

Inductive outcome (A : Type) : Type :=
| Ok (a : A)
| Raise (e : exn).
Arguments Ok {A} a.
Arguments Raise {A} e.

(** ** [transpose_nested_arrays] *)

(** The two accumulators of one record: [single_values] and [array_groups]. *)
Definition extracted : Type := dict json * dict (dict (list json)).

(** One turn of the loop of [extract_arrays], for the entry [key: value]. *)
Fixpoint extract_entry (prefix key : string) (value : json) (acc : extracted)
  {struct value} : extracted :=
  let full_key := dict_child_key prefix "." key in
  match value with
  | JObj kvs =>
      (fix extract_arrays (obj : list (string * json)) (acc : extracted) : extracted :=
         match obj with
         | [] => acc
         | (key', value') :: rest =>
             extract_arrays rest (extract_entry full_key key' value' acc)
         end) kvs acc
  | JArr xs =>
      let '(single_values, array_groups) := acc in
      let group_name := if prefix is "" then "root" else prefix in
      let array_groups :=
        if dict_get array_groups group_name is None
        then dict_set array_groups group_name []
        else array_groups in
      (single_values,
       dict_set array_groups group_name
         (dict_set (default [] (dict_get array_groups group_name)) key xs))
  | _ =>
      let '(single_values, array_groups) := acc in
      (dict_set single_values full_key value, array_groups)
  end.

Definition extract_arrays (obj : list (string * json)) (prefix : string)
    (acc : extracted) : extracted :=
  fold_left (λ acc kv, extract_entry prefix kv.1 kv.2 acc) obj acc.

Definition max_length_of (array_groups : dict (dict (list json))) : nat :=
  fold_left
    (λ max_length group,
       fold_left (λ max_length arr, max_length `max` length arr)
         group.*2 max_length)
    array_groups.*2 0.

(** The row built for index [i]. *)
Definition transposed_row (acc : extracted) (i : nat) : dict json :=
  let '(single_values, array_groups) := acc in
  let row :=
    fold_left
      (λ row kv, dict_set row kv.1 (if decide (i = 0) then kv.2 else JStr ""))
      single_values [] in
  fold_left
    (λ row g,
       let '(group_name, arrays) := g in
       fold_left
         (λ row a,
            let '(array_name, array_values) := a in
            let field_name :=
              if decide (group_name = "root") then array_name
              else group_name +:+ "." +:+ array_name in
            if decide (i < length array_values)
            then dict_set row field_name (nth i array_values JNull)
            else dict_set row field_name (JStr ""))
         arrays row)
    array_groups row.

(** What the loop body appends to [result] for a record [item]. *)
Definition transpose_item (item : list (string * json)) : list json :=
  let acc := extract_arrays item "" ([], []) in
  let max_length := max_length_of acc.2 in
  if decide (max_length = 0) then [JObj item]
  else (λ i, JObj (transposed_row acc i)) <$> seq 0 max_length.

(** The loop over [data]; [item.items()] raises on anything but a dict. *)
Fixpoint transpose_loop (data : list json) (result : list json)
  : outcome (list json) :=
  match data with
  | [] => Ok result
  | JObj item :: rest => transpose_loop rest (result ++ transpose_item item)
  | _ :: _ => Raise AttributeError
  end.

Definition transpose_nested_arrays (data : list json) : outcome (list json) :=
  match data with
  | [] => Ok data
  | first :: _ => if negb (is_dict first) then Ok data else transpose_loop data []
  end.

(** ** [detect_transpose_structure] *)

(** One turn of the loop of [has_nested_arrays]: does it return [True]? *)
Fixpoint nested_arrays_at (value : json) : bool :=
  match value with
  | JObj kvs =>
      existsb (λ kv, is_list kv.2) kvs
      || (fix has_nested_arrays (obj : list (string * json)) : bool :=
            match obj with
            | [] => false
            | (_, value') :: rest =>
                nested_arrays_at value' || has_nested_arrays rest
            end) kvs
  | JArr _ => true
  | _ => false
  end.

Definition has_nested_arrays (obj : list (string * json)) : bool :=
  existsb (λ kv, nested_arrays_at kv.2) obj.

Definition detect_transpose_structure (data : list json) : bool :=
  if bool_decide (data = []) || negb (length data =? 1) then false
  else match data with
       | JObj item :: _ => has_nested_arrays item
       | _ => false
       end.

(** ** [extract_all_keys] and [extract_all_keys_advanced] *)

(** [sorted(all_keys - set(first_item_keys))] *)
Definition remaining_keys (all_keys : gset string) (first_item_keys : list string)
  : list string :=
  merge_sort String.le (elements (all_keys ∖ list_to_set first_item_keys)).

Definition extract_all_keys_advanced (json_data : list json) : list string :=
  if bool_decide (json_data = []) then []
  else
    let '(all_keys, first_item_keys) :=
      fold_left
        (λ '(all_keys, first_item_keys) '(i, item),
           if is_dict item then
             let flattened := flatten_nested_data item "" "." in
             (all_keys ∪ list_to_set (dict_keys flattened),
              if decide (i = 0) then dict_keys flattened else first_item_keys)
           else (all_keys, first_item_keys))
        (imap (λ i item, (i, item)) json_data) ((∅ : gset string), []) in
    first_item_keys ++ remaining_keys all_keys first_item_keys.

Definition extract_all_keys (json_data : list json) : list string :=
  if bool_decide (json_data = []) then []
  else
    let first_item_keys :=
      match json_data with
      | JObj kvs :: _ => dict_keys kvs
      | _ => []
      end in
    let all_keys :=
      fold_left
        (λ (all_keys : gset string) item,
           if item is JObj kvs then all_keys ∪ list_to_set (dict_keys kvs)
           else all_keys)
        json_data ∅ in
    first_item_keys ++ remaining_keys all_keys first_item_keys.

(** ** Effects: what the program prints and what it does to files *)

Inductive mode : Type := ModePlain | ModeFlatten | ModeTranspose.

Inductive message : Type :=
| MsgEmptyArray                 (* the JSON array is empty *)
| MsgAutoDetected               (* a structure that needs transposing was found *)
| MsgTransposeMode
| MsgFlattenMode
| MsgNoKeys                     (* no key was found in the JSON objects *)
| MsgSkipped (item : json)      (* an item that is not an object is skipped *)
| MsgDone (csv_file_path : string) (rows columns : nat) (mode : mode)
| MsgExclusive                  (* --flatten and --transpose given together *)
| MsgError (e : exn).

Inductive event : Type :=
| PrintOut (m : message)                    (* on standard output *)
| PrintErr (m : message)                 (* on standard error *)
| PathExists (path : string)             (* [Path.exists] *)
| OpenRead (path : string)               (* [open(path, 'r')] *)
| OpenWrite (path : string)              (* [open(path, 'w')]: create or truncate *)
| WriteRow (path : string) (row : list string).

Definition is_file_access (e : event) : bool :=
  match e with
  | PrintOut _ | PrintErr _ => false
  | _ => true
  end.

(** A computation logs its events and returns or raises. *)
Definition io (A : Type) : Type := list event * outcome A.

Global Instance io_ret : MRet io := λ A a, ([], Ok a).
Global Instance io_bind : MBind io := λ A B f m,
  match m with
  | (log, Ok a) => let '(log', r) := f a in (log ++ log', r)
  | (log, Raise e) => (log, Raise e)
  end.

Definition emit (e : event) : io unit := ([e], Ok tt).
Definition raise {A} (e : exn) : io A := ([], Raise e).
Definition lift {A} (r : outcome A) : io A := ([], r).

(** [try: m except Exception as e: handler(e)] *)
Definition try_except {A} (m : io A) (handler : exn → io A) : io A :=
  match m with
  | (log, Ok a) => (log, Ok a)
  | (log, Raise e) => let '(log', r) := handler e in (log ++ log', r)
  end.

(** [for x in xs: body(x)] *)
Fixpoint for_each {A} (xs : list A) (body : A → io unit) : io unit :=
  match xs with
  | [] => mret tt
  | x :: rest => body x ;; for_each rest body
  end.

(** What the input path holds when the program runs. *)
Inductive file_state : Type :=
| Missing                       (* no such file *)
| Unreadable                    (* [open] or decoding fails *)
| Malformed                     (* [json.load] raises [JSONDecodeError] *)
| Parsed (data : json).

Record arguments : Type := Arguments {
  input_file : string;
  output : option string;
  flatten : bool;
  transpose : bool;
}.

Section converter.
(** Library functions the program calls and this development leaves open:
    [str] of a dict or list, [json.dumps], [Path.with_suffix]. *)
Variable str_container : json → string.
Variable json_dumps : json → string.
Variable with_suffix : string → string → outcome string.

(** [str(value)] *)
Definition py_str (value : json) : string :=
  match value with
  | JNull => "None"
  | JBool true => "True"
  | JBool false => "False"
  | JInt n => str_int n
  | JFloat repr => repr
  | JStr s => s
  | JArr _ | JObj _ => str_container value
  end.

(** [flatten_value]; [None] also stands for a key that is absent. *)
Definition flatten_value (value : json) : string :=
  match value with
  | JNull => ""
  | JArr _ | JObj _ => json_dumps value
  | _ => py_str value
  end.

(** [item.get(key)] *)
Definition item_get (item : dict json) (key : string) : json :=
  default JNull (dict_get item key).

(** [csv.DictWriter.writerow]: the cells of [row] in the order of
    [fieldnames], [restval] being the empty string. *)
Definition dict_writer_row (fieldnames : list string) (row : dict string)
  : list string :=
  (λ key, default "" (dict_get row key)) <$> fieldnames.

Definition plain_row (headers : list string) (item : dict json) : dict string :=
  dict_of_items ((λ key, (key, flatten_value (item_get item key))) <$> headers).

Definition flatten_row (headers : list string) (item : dict json) : dict string :=
  let flattened_item := flatten_nested_data (JObj item) "" "." in
  dict_of_items
    ((λ key, (key, py_str (default (JStr "") (dict_get flattened_item key))))
       <$> headers).

(** [write_hierarchical_csv] *)
Definition write_hierarchical_csv (csv_file_path : string)
    (headers : list string) (data : list json) : io unit :=
  let '(top_headers, sub_headers) := create_hierarchical_headers headers in
  emit (OpenWrite csv_file_path) ;;
  emit (WriteRow csv_file_path top_headers) ;;
  emit (WriteRow csv_file_path sub_headers) ;;
  for_each data (λ item,
    match item with
    | JObj item =>
        emit (WriteRow csv_file_path
                ((λ header, py_str (default (JStr "") (dict_get item header)))
                   <$> headers))
    | _ => raise AttributeError
    end).

(** The loop that writes the data rows in plain and flatten mode. *)
Definition write_rows (csv_file_path : string) (headers : list string)
    (flatten_arrays : bool) (processed_data : list json) : io unit :=
  for_each processed_data (λ item,
    match item with
    | JObj item =>
        let row :=
          if flatten_arrays then flatten_row headers item
          else plain_row headers item in
        emit (WriteRow csv_file_path (dict_writer_row headers row))
    | _ => emit (PrintOut (MsgSkipped item))
    end).

(** The output path: the one given, or the input path with a new suffix. *)
Definition output_path (json_file_path : string)
    (csv_file_path : option string) (flatten_arrays transpose : bool)
  : outcome string :=
  match csv_file_path with
  | Some path => Ok path
  | None =>
      let suffix :=
        if transpose then "_transposed.csv"
        else if flatten_arrays then "_flattened.csv"
        else ".csv" in
      with_suffix json_file_path suffix
  end.

Definition json_to_csv (file : file_state) (json_file_path : string)
    (csv_file_path : option string) (flatten_arrays transpose : bool)
  : io unit :=
  emit (PathExists json_file_path) ;;
  (if file is Missing then raise FileNotFoundError else mret tt) ;;
  csv_file_path ←
    lift (output_path json_file_path csv_file_path flatten_arrays transpose);
  emit (OpenRead json_file_path) ;;
  data ←
    match file with
    | Parsed data => mret data
    | Malformed => raise ValueError
    | _ => raise Exception
    end;
  match data with
  | JArr data =>
      if bool_decide (data = []) then
        emit (PrintOut MsgEmptyArray) ;;
        emit (OpenWrite csv_file_path)
      else
        let auto_transpose :=
          detect_transpose_structure data && negb flatten_arrays
          && negb transpose in
        transpose ←
          ((if auto_transpose then emit (PrintOut MsgAutoDetected) ;; mret true
            else mret transpose) : io bool);
        '(processed_data, headers) ←
          (if (transpose : bool) then
             emit (PrintOut MsgTransposeMode) ;;
             processed_data ← lift (transpose_nested_arrays data);
             mret (processed_data, extract_all_keys processed_data)
           else if flatten_arrays then
             emit (PrintOut MsgFlattenMode) ;;
             mret (data, extract_all_keys_advanced data)
           else mret (data, extract_all_keys data));
        if bool_decide (headers = []) then emit (PrintOut MsgNoKeys)
        else
          try_except
            ((if (transpose : bool) then
                write_hierarchical_csv csv_file_path headers processed_data
              else
                emit (OpenWrite csv_file_path) ;;
                emit (WriteRow csv_file_path headers) ;;
                write_rows csv_file_path headers flatten_arrays processed_data) ;;
             emit (PrintOut (MsgDone csv_file_path (length processed_data)
                            (length headers)
                            (if (transpose : bool) then ModeTranspose
                             else if flatten_arrays then ModeFlatten
                             else ModePlain))))
            (λ e, raise Exception)
  | _ => raise ValueError
  end.

(** [main], after [argparse] has produced [args]; the result is the
    event log and the exit code of the process. *)
Definition main (args : arguments) (file : file_state) : list event * nat :=
  if flatten args && transpose args then
    ([PrintErr MsgExclusive], 1)
  else
    let run :=
      json_to_csv file (input_file args) (output args)
        (flatten args) (transpose args) in
    match run.2 with
    | Ok _ => (run.1, 0)
    | Raise e => (run.1 ++ [PrintErr (MsgError e)], 1)
    end.

(** The cells [dict_writer_row] is expected to give for a record, column by
    column, in flatten mode and in plain mode. *)
Definition row_cells (flatten_arrays : bool) (headers : list string)
    (item : list (string * json)) : list string :=
  if flatten_arrays then
    (λ key, py_str
              (default (JStr "")
                 (dict_get (flatten_nested_data (JObj item) "" ".") key)))
      <$> headers
  else (λ key, flatten_value (item_get item key)) <$> headers.

End converter.

(** ** [Path.with_suffix] *)

(** [suffix.startswith('.')] *)
Definition starts_with_dot (suffix : string) : bool :=
  match suffix with
  | String "." _ => true
  | _ => false
  end.

(** [pathlib]'s [with_suffix] on a POSIX path: a suffix that holds the
    separator, that is not empty and does not start with a dot, or that is
    the dot alone, is refused with [ValueError].  What the method does with
    a suffix it accepts (it refuses a path without a name and replaces the
    suffix of the name) is left open as [rename]. *)
Definition path_with_suffix (rename : string → string → outcome string)
    (path suffix : string) : outcome string :=
  if str_in "/" suffix then Raise ValueError
  else if negb (bool_decide (suffix = "")) && negb (starts_with_dot suffix)
          || bool_decide (suffix = ".")
  then Raise ValueError
  else rename path suffix.

(** * Vocabulary of the properties *)

(** ** Runs *)

(** The rows a log has put in the file at [path], if it opened it. *)
Fixpoint file_rows (path : string) (log : list event)
    (content : option (list (list string))) : option (list (list string)) :=
  match log with
  | [] => content
  | OpenWrite p :: log' =>
      file_rows path log' (if decide (p = path) then Some [] else content)
  | WriteRow p row :: log' =>
      file_rows path log'
        (if decide (p = path) then (λ rows, rows ++ [row]) <$> content
         else content)
  | _ :: log' => file_rows path log' content
  end.

(** Every row written during a run, and every item reported as skipped. *)
Definition written_rows (log : list event) : list (list string) :=
  omap (λ e, if e is WriteRow _ row then Some row else None) log.

Definition skipped_items (log : list event) : list json :=
  omap (λ e, if e is PrintOut (MsgSkipped item) then Some item else None) log.

(** The records of a dataset, in order. *)
Definition objects (data : list json) : list (list (string * json)) :=
  omap (λ item, if item is JObj kvs then Some kvs else None) data.

(** Its other elements. *)
Definition non_objects (data : list json) : list json :=
  List.filter (λ item, negb (is_dict item)) data.

(** ** Keys *)

(** Keys are distinct within every object, as in any parsed document. *)
Fixpoint unique_keys (v : json) : bool :=
  match v with
  | JObj kvs => bool_decide (NoDup kvs.*1) && forallb (λ kv, unique_keys kv.2) kvs
  | JArr xs => forallb unique_keys xs
  | _ => true
  end.

(** [s] holds no character of [delims]. *)
Definition avoids (delims : list ascii) (s : string) : bool :=
  forallb (λ c, negb (str_in c s)) delims.

(** No key, at any depth, holds a character of [delims]. *)
Fixpoint keys_avoid (delims : list ascii) (v : json) : bool :=
  match v with
  | JObj kvs =>
      forallb (λ kv, avoids delims kv.1 && keys_avoid delims kv.2) kvs
  | JArr xs => forallb (keys_avoid delims) xs
  | _ => true
  end.

(** The keys of the record itself are not empty. *)
Definition top_keys_nonempty (item : list (string * json)) : bool :=
  forallb (λ kv, negb (bool_decide (kv.1 = ""))) item.

(** [s] is empty or starts with one of [delims]. *)
Definition at_delim (delims : list ascii) (s : string) : Prop :=
  match s with
  | EmptyString => True
  | String c _ => c ∈ delims
  end.

(** The keys of a record in a mode of key extraction. *)
Definition record_keys (flatten_mode : bool) (item : json) : list string :=
  match item with
  | JObj kvs =>
      if flatten_mode then dict_keys (flatten_nested_data item "" ".")
      else dict_keys kvs
  | _ => []
  end.

Definition extract_keys (flatten_mode : bool) (json_data : list json) : list string :=
  if flatten_mode then extract_all_keys_advanced json_data
  else extract_all_keys json_data.

(** Both extraction loops add the keys of each record to a set. *)
Definition gather (flatten_mode : bool) (data : list json) (acc : gset string)
  : gset string :=
  fold_left (λ acc item, acc ∪ list_to_set (record_keys flatten_mode item))
    data acc.

(** ** Headers *)

(** The pair of cells [create_hierarchical_headers] makes for one header. *)
Definition header_pair (header : string) : string * string :=
  if str_in "." header then
    (str_split1 "." header !!! 0, str_split1 "." header !!! 1)
  else (header, "").

(** [top + "." + sub] when [sub] is not empty, [top] alone otherwise. *)
Definition rejoin (top sub : string) : string :=
  if sub is "" then top else top +:+ "." +:+ sub.

(** The first ['.'] of [s] is its last character. *)
Fixpoint ends_at_first_dot (s : string) : bool :=
  match s with
  | EmptyString => false
  | String a r =>
      if decide (a = "."%char) then bool_decide (r = "")
      else ends_at_first_dot r
  end.

(** ** Positions of the scalars of a value *)

Inductive step : Type :=
| Key (k : string)
| Index (i : nat).

Definition path : Type := list step.

Definition under (s : step) (pv : path * json) : path * json := (s :: pv.1, pv.2).

Fixpoint scalar_positions (v : json) : list (path * json) :=
  match v with
  | JObj kvs => kvs ≫= λ kv, under (Key kv.1) <$> scalar_positions kv.2
  | JArr xs =>
      enumerate_from (λ i x, under (Index i) <$> scalar_positions x) 0 xs
  | _ => [([], v)]
  end.

(** The paths to the scalars of a value. *)
Definition paths (v : json) : list path := (scalar_positions v).*1.

(** The flat key of a path: the keys the flattener builds along it. *)
Definition extend (sep : string) (parent_key : string) (s : step) : string :=
  match s with
  | Key k => dict_child_key parent_key sep k
  | Index i => list_child_key parent_key i
  end.

Definition flat_key_from (parent_key : string) (p : path) : string :=
  fold_left (extend ".") p parent_key.

Definition flat_key (p : path) : string := flat_key_from "" p.

(** The entries the flattener is expected to give below [parent_key]: one
    per scalar position, under the flat key of its path. *)
Definition flat_items (v : json) (parent_key : string) : list (string * json) :=
  (λ pv, (flat_key_from parent_key pv.1, pv.2)) <$> scalar_positions v.

(** What a step adds to a key that is not empty, and a path likewise. *)
Definition token (s : step) : string :=
  match s with
  | Key k => "." +:+ k
  | Index i => "[" +:+ str_nat i +:+ "]"
  end.

Definition tokens (p : path) : string := foldr (λ s rest, token s +:+ rest) "" p.

(** The keys along a path hold neither ['.'] nor ['[']. *)
Definition plain_step (s : step) : Prop :=
  match s with
  | Key k => avoids ["."%char; "["%char] k = true
  | Index _ => True
  end.

(** ** Fields of a record, as the transposer sees them *)

Inductive field : Type :=
| SingleField (full_key : string) (value : json)
| ArrayField (holder key : string) (values : list json).

(** The fields below the entry [key: value] of the object at path [prefix]:
    arrays reached through objects only, and everything else as a single. *)
Fixpoint entry_fields (prefix key : string) (value : json) : list field :=
  match value with
  | JObj kvs =>
      kvs ≫= λ kv, entry_fields (dict_child_key prefix "." key) kv.1 kv.2
  | JArr xs => [ArrayField prefix key xs]
  | _ => [SingleField (dict_child_key prefix "." key) value]
  end.

Definition record_fields (item : list (string * json)) : list field :=
  item ≫= λ kv, entry_fields "" kv.1 kv.2.

(** The dotted path of a field, which names its column. *)
Definition column (f : field) : string :=
  match f with
  | SingleField full_key _ => full_key
  | ArrayField holder key _ => dict_child_key holder "." key
  end.

Definition array_lengths (fs : list field) : list nat :=
  omap (λ f, if f is ArrayField _ _ values then Some (length values) else None) fs.

Definition longest_array (fs : list field) : nat := max_list (array_lengths fs).

(** No two fields share a column, and no array lies directly in an object
    whose dotted path is the word the transposer keeps for the top level. *)
Definition distinct_columns (fs : list field) : Prop :=
  NoDup (column <$> fs) ∧
  Forall (λ f, if f is ArrayField holder _ _ then holder ≠ "root" else True) fs.

(** The cell a row is expected to hold for a field. *)
Definition expected_cell (f : field) (i : nat) : json :=
  match f with
  | SingleField _ value => if decide (i = 0) then value else JStr ""
  | ArrayField _ _ values => default (JStr "") (values !! i)
  end.

(** *** The accumulators of the transposer, field by field *)

(** The group an array is filed under. *)
Definition group_name (holder : string) : string :=
  if holder is "" then "root" else holder.

(** [array_groups[group][key] = values] *)
Definition add_array (array_groups : dict (dict (list json)))
    (slot : string * string * list json) : dict (dict (list json)) :=
  let '(group, key, values) := slot in
  dict_set array_groups group
    (dict_set (default [] (dict_get array_groups group)) key values).

(** What [extract_arrays] does with one field. *)
Definition apply_field (acc : extracted) (f : field) : extracted :=
  match f with
  | SingleField full_key value => (dict_set acc.1 full_key value, acc.2)
  | ArrayField holder key values =>
      (acc.1, add_array acc.2 (group_name holder, key, values))
  end.

Definition singles (fs : list field) : list (string * json) :=
  omap (λ f, if f is SingleField full_key value then Some (full_key, value)
             else None) fs.

Definition arrays (fs : list field) : list (string * string * list json) :=
  omap (λ f, if f is ArrayField holder key values
             then Some (group_name holder, key, values) else None) fs.

(** The arrays of [array_groups], each with its group and key, in the order
    the rows are filled. *)
Definition group_entries (array_groups : dict (dict (list json)))
  : list (string * string * list json) :=
  array_groups ≫= λ g, (λ a, (g.1, a.1, a.2)) <$> g.2.

(** The column of the array [array_name] of the group [group_name]. *)
Definition field_name (slot : string * string) : string :=
  if decide (slot.1 = "root") then slot.2 else slot.1 +:+ "." +:+ slot.2.

(** The assignments that fill the row of index [i]. *)
Definition single_cells (i : nat) (single_values : dict json)
  : list (string * json) :=
  (λ kv, (kv.1, if decide (i = 0) then kv.2 else JStr "")) <$> single_values.

Definition array_cells (i : nat) (entries : list (string * string * list json))
  : list (string * json) :=
  (λ e, (field_name e.1, default (JStr "") (e.2 !! i))) <$> entries.

(** ** Array fields a detector may look for *)

Inductive has_array_field : list (string * json) → Prop :=
| array_here k xs obj :
    (k, JArr xs) ∈ obj → has_array_field obj
| array_below k inner obj :
    (k, JObj inner) ∈ obj → has_array_field inner → has_array_field obj.

(** An array among the direct values or one level of nested objects. *)
Definition array_within_one_level (obj : list (string * json)) : bool :=
  existsb
    (λ kv, match kv.2 with
           | JArr _ => true
           | JObj inner => existsb (λ kv', is_list kv'.2) inner
           | _ => false
           end) obj.

(** ** Scalars and output events *)

Definition is_scalar (v : json) : bool := negb (is_dict v || is_list v).

(** The events that create the output file or add to it. *)
Definition is_output_event (e : event) : bool :=
  match e with
  | OpenWrite _ | WriteRow _ _ => true
  | _ => false
  end.

(** The cells [write_hierarchical_csv] writes for a row. *)
Definition hierarchical_cells (str_container : json → string)
    (headers : list string) (row : list (string * json)) : list string :=
  (λ header, py_str str_container (default (JStr "") (dict_get row header)))
    <$> headers.

(** ** Tables *)

(** An event that may follow the opening of the table at [out], whose rows
    have [n] cells: a row for [out], or a message. *)
Definition table_event (out : string) (n : nat) (e : event) : Prop :=
  match e with
  | WriteRow p row => p = out ∧ length row = n
  | PrintOut _ | PrintErr _ => True
  | _ => False
  end.

(** The number of rows the closing message reports. *)
Definition reported_rows (log : list event) : list nat :=
  omap (λ e, if e is PrintOut (MsgDone _ rows _ _) then Some rows else None) log.

(** * Properties *)

(** ** Facts about dictionaries *)

Section dict_facts.
Context {V : Type}.
Implicit Types (d : dict V) (k : string) (v : V).

Lemma dict_get_set_eq d k v : dict_get (dict_set d k v) k = Some v.
Proof.
  induction d as [|[k' v'] d IH]; simpl.
  - by rewrite decide_True.
  - destruct (decide (k' = k)) as [->|Hne]; simpl.
    + by rewrite decide_True.
    + by rewrite decide_False.
Qed.

Lemma dict_get_set_ne d k k' v :
  k ≠ k' → dict_get (dict_set d k v) k' = dict_get d k'.
Proof.
  intros Hne. induction d as [|[k0 v0] d IH]; simpl.
  - by rewrite decide_False.
  - destruct (decide (k0 = k)) as [->|Hk0]; simpl.
    + by rewrite !decide_False.
    + by rewrite IH.
Qed.

Lemma dict_get_None d k : dict_get d k = None ↔ k ∉ d.*1.
Proof.
  induction d as [|[k' v'] d IH]; simpl.
  - split; [|done]. intros _. apply not_elem_of_nil.
  - rewrite not_elem_of_cons. destruct (decide (k' = k)) as [->|Hne].
    + split; [done|]. by intros [? _].
    + rewrite IH. intuition congruence.
Qed.

Lemma dict_get_Some_elem_of d k v : dict_get d k = Some v → (k, v) ∈ d.
Proof.
  induction d as [|[k' v'] d IH]; simpl; [done|].
  destruct (decide (k' = k)) as [->|Hne].
  - intros [= ->]. left.
  - intros. right. by apply IH.
Qed.

Lemma dict_get_elem_of d k v :
  NoDup d.*1 → (k, v) ∈ d → dict_get d k = Some v.
Proof.
  induction d as [|[k' v'] d IH]; simpl.
  - intros _ Hin. by apply elem_of_nil in Hin.
  - rewrite NoDup_cons. intros [Hk' Hd] Hin.
    apply elem_of_cons in Hin as [[= -> ->]|Hin].
    + by rewrite decide_True.
    + rewrite decide_False; [by apply IH|].
      intros ->. apply Hk'. apply list_elem_of_fmap. by exists (k, v).
Qed.

Lemma dict_set_fresh d k v : k ∉ d.*1 → dict_set d k v = d ++ [(k, v)].
Proof.
  induction d as [|[k' v'] d IH]; simpl; [done|].
  rewrite not_elem_of_cons. intros [Hne Hd].
  rewrite decide_False by done. by rewrite IH.
Qed.

Lemma dict_set_present d k v :
  k ∈ d.*1 →
  ∃ d1 v0 d2, d = d1 ++ ((k, v0) :: d2) ∧ (k ∉ d1.*1) ∧
              dict_set d k v = d1 ++ ((k, v) :: d2).
Proof.
  induction d as [|[k' v'] d IH]; simpl.
  - intros Hin. by apply elem_of_nil in Hin.
  - intros Hin. destruct (decide (k' = k)) as [->|Hne].
    + exists [], v', d. split_and!; [done| |done]. apply not_elem_of_nil.
    + apply elem_of_cons in Hin as [->|Hin]; [done|].
      destruct (IH Hin) as (d1 & v0 & d2 & -> & Hd1 & ->).
      exists ((k', v') :: d1), v0, d2. split_and!; [done| |done].
      simpl. rewrite not_elem_of_cons. intuition congruence.
Qed.

Lemma dict_set_keys d k v :
  (dict_set d k v).*1 = if decide (k ∈ d.*1) then d.*1 else d.*1 ++ [k].
Proof.
  destruct (decide (k ∈ d.*1)) as [Hin|Hin].
  - destruct (dict_set_present d k v Hin) as (d1 & v0 & d2 & -> & _ & ->).
    by rewrite !fmap_app.
  - rewrite dict_set_fresh by done. by rewrite fmap_app.
Qed.

Lemma dict_set_NoDup d k v : NoDup d.*1 → NoDup (dict_set d k v).*1.
Proof.
  intros Hd. rewrite dict_set_keys. case_decide; [done|].
  apply NoDup_app. split_and!; [done| |apply NoDup_singleton].
  intros k' Hk' Heq. apply list_elem_of_singleton in Heq as ->. done.
Qed.

Lemma dict_update_NoDup d items : NoDup d.*1 → NoDup (dict_update d items).*1.
Proof.
  revert d. induction items as [|[k v] items IH]; intros d Hd; simpl; [done|].
  apply IH. by apply dict_set_NoDup.
Qed.

Lemma dict_update_fresh d items :
  NoDup (d ++ items).*1 → dict_update d items = d ++ items.
Proof.
  revert d. induction items as [|[k v] items IH]; intros d Hnd; simpl.
  - by rewrite app_nil_r.
  - rewrite dict_set_fresh.
    + rewrite IH; rewrite <-app_assoc; done.
    + rewrite fmap_app in Hnd. apply NoDup_app in Hnd as (_ & Hd & _).
      intros Hk. apply (Hd k Hk). simpl. left.
Qed.

Lemma dict_update_app d items1 items2 :
  dict_update d (items1 ++ items2) = dict_update (dict_update d items1) items2.
Proof. apply fold_left_app. Qed.

Lemma dict_of_items_NoDup (items : list (string * V)) :
  NoDup (dict_of_items items).*1.
Proof. apply dict_update_NoDup. apply NoDup_nil_2. Qed.

Lemma dict_of_items_fresh (items : list (string * V)) :
  NoDup items.*1 → dict_of_items items = items.
Proof. intros. by apply (dict_update_fresh []). Qed.

(** Building a dictionary from the entries of a dictionary followed by more
    entries is the same as building it from all the entries. *)
Lemma dict_of_items_absorb (items more : list (string * V)) :
  dict_of_items (dict_of_items items ++ more) = dict_of_items (items ++ more).
Proof.
  change (dict_update [] (dict_of_items items ++ more)
          = dict_update [] (items ++ more)).
  rewrite !dict_update_app. f_equal.
  apply (dict_of_items_fresh (dict_of_items items)), dict_of_items_NoDup.
Qed.

Lemma dict_set_set_eq d k v v' :
  dict_set (dict_set d k v) k v' = dict_set d k v'.
Proof.
  induction d as [|[k0 v0] d IH]; simpl.
  - by rewrite decide_True.
  - destruct (decide (k0 = k)) as [->|Hne]; simpl.
    + by rewrite decide_True.
    + by rewrite decide_False, IH.
Qed.

Lemma dict_get_app_first (d1 d2 : dict V) k v :
  k ∉ d1.*1 → dict_get (d1 ++ (k, v) :: d2) k = Some v.
Proof.
  induction d1 as [|[k0 v0] d1 IH]; simpl.
  - intros _. by rewrite decide_True.
  - rewrite not_elem_of_cons. intros [Hne Hd1].
    rewrite decide_False by done. by apply IH.
Qed.

Lemma dict_update_cons d k v (items : list (string * V)) :
  dict_update d ((k, v) :: items) = dict_update (dict_set d k v) items.
Proof. done. Qed.

(** Assignments to two keys commute when the first key is already there. *)
Lemma dict_set_comm d k k' v v' :
  k ≠ k' → k ∈ d.*1 →
  dict_set (dict_set d k' v') k v = dict_set (dict_set d k v) k' v'.
Proof.
  intros Hne. induction d as [|[k0 v0] d IH]; simpl.
  - by intros ?%elem_of_nil.
  - intros Hin. destruct (decide (k0 = k)) as [->|Hk0].
    + rewrite decide_False by done. simpl.
      by rewrite decide_True, decide_False.
    + apply elem_of_cons in Hin as [->|Hin]; [done|].
      destruct (decide (k0 = k')) as [->|Hk0']; simpl.
      * by rewrite decide_False, decide_True.
      * by rewrite !decide_False, IH.
Qed.

Lemma dict_set_update_comm d (items : list (string * V)) k v :
  k ∉ items.*1 → k ∈ d.*1 →
  dict_set (dict_update d items) k v = dict_update (dict_set d k v) items.
Proof.
  revert d. induction items as [|[k' v'] items IH]; intros d Hk Hd; [done|].
  simpl in Hk. apply not_elem_of_cons in Hk as [Hne Hk].
  rewrite !dict_update_cons, IH; [|done|].
  - by rewrite dict_set_comm.
  - rewrite dict_set_keys. case_decide; [done|].
    apply elem_of_app. by left.
Qed.

(** Assigning the entries of a dictionary after changing one of them. *)
Lemma dict_update_set d (m : dict V) k v :
  NoDup m.*1 →
  dict_update d (dict_set m k v) = dict_set (dict_update d m) k v.
Proof.
  intros Hm. destruct (decide (k ∈ m.*1)) as [Hin|Hin].
  - destruct (dict_set_present m k v Hin) as (m1 & v0 & m2 & -> & Hm1 & ->).
    rewrite fmap_app, fmap_cons in Hm.
    apply NoDup_app in Hm as (_ & _ & Hm2). apply NoDup_cons in Hm2 as [Hm2 _].
    rewrite !dict_update_app, !dict_update_cons.
    rewrite (dict_set_update_comm (dict_set (dict_update d m1) k v0) m2 k v);
      [by rewrite dict_set_set_eq|done|].
    rewrite dict_set_keys. case_decide; [done|]. apply elem_of_app.
    right. left.
  - rewrite dict_set_fresh by done. by rewrite dict_update_app.
Qed.

(** Assigning the entries of [dict(items)] is assigning [items]. *)
Lemma dict_update_of_items d (items : list (string * V)) :
  dict_update d (dict_of_items items) = dict_update d items.
Proof.
  induction items as [|[k v] items IH] using rev_ind; [done|].
  assert (dict_of_items (items ++ [(k, v)])
          = dict_set (dict_of_items items) k v) as ->
    by apply dict_update_app.
  rewrite dict_update_set by apply dict_of_items_NoDup.
  by rewrite IH, dict_update_app.
Qed.

Lemma dict_update_bind_of_items {A} d (f : A → list (string * V)) (l : list A) :
  dict_update d (l ≫= λ x, dict_of_items (f x)) = dict_update d (l ≫= f).
Proof.
  revert d. induction l as [|x l IH]; intros d; [done|].
  by rewrite !bind_cons, !dict_update_app, dict_update_of_items, IH.
Qed.

Lemma dict_get_update_map d (f : string → V) (keys : list string) k :
  dict_get (dict_update d ((λ key, (key, f key)) <$> keys)) k
  = if decide (k ∈ keys) then Some (f k) else dict_get d k.
Proof.
  revert d. induction keys as [|key keys IH]; intros d.
  - rewrite decide_False; [done|apply not_elem_of_nil].
  - change (dict_get (dict_update (dict_set d key (f key))
                        ((λ key, (key, f key)) <$> keys)) k
            = if decide (k ∈ key :: keys) then Some (f k) else dict_get d k).
    rewrite IH. destruct (decide (k ∈ keys)) as [Hin|Hin].
    + rewrite decide_True; [done|by right].
    + destruct (decide (key = k)) as [->|Hne].
      * rewrite dict_get_set_eq, decide_True; [done|left].
      * rewrite dict_get_set_ne by done. rewrite decide_False; [done|].
        rewrite not_elem_of_cons. intuition congruence.
Qed.
End dict_facts.

(** ** Facts about strings *)

Lemma str_app_length (s t : string) :
  String.length (s +:+ t) = String.length s + String.length t.
Proof. induction s as [|a s IH]; simpl; [done|]. by rewrite IH. Qed.

Lemma str_app_assoc (s t u : string) : (s +:+ t) +:+ u = s +:+ (t +:+ u).
Proof. induction s as [|a s IH]; simpl; [done|]. by rewrite IH. Qed.

Lemma str_app_nil_r (s : string) : s +:+ "" = s.
Proof. induction s as [|a s IH]; simpl; [done|]. by rewrite IH. Qed.

(** ** The transposer leaves some datasets alone *)

(** C10.  The transposer hands its input back, whole and unchanged, when the
    list is empty or its first element is not an object; what comes after
    that first element is never looked at. *)
Theorem transpose_identity_without_leading_object (data : list json) :
  data = [] ∨ (∃ first rest, data = first :: rest ∧ is_dict first = false) →
  transpose_nested_arrays data = Ok data.
Proof.
  intros [-> | (first & rest & -> & Hfirst)]; [done|].
  unfold transpose_nested_arrays. by rewrite Hfirst.
Qed.

Lemma transpose_identity_without_leading_object_witness :
  transpose_nested_arrays
    [JInt 7; JObj [("xs", JArr [JInt 1; JInt 2])]]
  = Ok [JInt 7; JObj [("xs", JArr [JInt 1; JInt 2])]].
Proof.
  apply transpose_identity_without_leading_object.
  right. eexists _, _. split; reflexivity.
Defined.

(** ** The detector *)

Lemma has_nested_arrays_unfold (kvs : list (string * json)) :
  nested_arrays_at (JObj kvs)
  = existsb (λ kv, is_list kv.2) kvs || has_nested_arrays kvs.
Proof.
  simpl. f_equal. induction kvs as [|[k v] kvs IH]; [done|].
  simpl. by rewrite IH.
Qed.

Lemma existsb_elem_of {A} (f : A → bool) (l : list A) :
  existsb f l = true ↔ ∃ x, x ∈ l ∧ f x = true.
Proof.
  rewrite existsb_exists. by setoid_rewrite list_elem_of_In.
Qed.

Lemma nested_arrays_at_spec (v : json) :
  nested_arrays_at v = true ↔
  match v with
  | JArr _ => True
  | JObj kvs => has_array_field kvs
  | _ => False
  end.
Proof.
  induction v as [| | | | |xs _|kvs IH] using json_nested_ind; try done.
  rewrite has_nested_arrays_unfold, orb_true_iff. unfold has_nested_arrays.
  rewrite !existsb_elem_of. rewrite Forall_forall in IH. split.
  - intros [([k v] & Hin & Hv)|([k v] & Hin & Hv)]; simpl in *.
    + destruct v; try done. by eapply array_here.
    + apply (IH _ Hin) in Hv. simpl in Hv. destruct v; try done.
      * by eapply array_here.
      * by eapply array_below.
  - inversion 1 as [k xs obj Hin|k inner obj Hin Hinner]; subst.
    + left. by exists (k, JArr xs).
    + right. exists (k, JObj inner). split; [done|]. by apply (IH _ Hin).
Qed.

Lemma has_nested_arrays_spec (obj : list (string * json)) :
  has_nested_arrays obj = true ↔ has_array_field obj.
Proof.
  rewrite <-(nested_arrays_at_spec (JObj obj)), has_nested_arrays_unfold.
  rewrite orb_true_iff. split; [by right|]. intros [Hhere|]; [|done].
  apply existsb_elem_of in Hhere as ([k v] & Hin & Hv).
  apply existsb_elem_of. exists (k, v). split; [done|]. by destruct v.
Qed.

(** C3, as the code has it.  The detector answers true exactly when the
    dataset is a single object that holds an array-valued field at any depth
    of nested objects: the search goes down through every level. *)
Theorem detect_transpose_structure_any_depth (data : list json) :
  detect_transpose_structure data = true ↔
  ∃ item, data = [JObj item] ∧ has_array_field item.
Proof.
  unfold detect_transpose_structure.
  destruct data as [|first [|second rest]]; simpl.
  - split; [done|]. by intros (? & ? & _).
  - destruct first; try (split; [done|]; by intros (? & ? & _)).
    rewrite has_nested_arrays_spec. split; [by eauto|].
    by intros (? & [= ->] & ?).
  - split; [done|]. by intros (? & ? & _).
Qed.

(** C3, as stated, fails: the only array of this record lies three objects
    down, beyond one level of nesting, and the detector answers true. *)
Lemma detect_transpose_structure_not_shallow :
  let item := [("a", JObj [("b", JObj [("c", JArr [JInt 1])])])] in
  array_within_one_level item = false ∧
  detect_transpose_structure [JObj item] = true.
Proof. by split. Qed.

Section run_properties.
Variable str_container : json → string.
Variable json_dumps : json → string.
Variable with_suffix : string → string → outcome string.

Abbreviation main := (main str_container json_dumps with_suffix).
Abbreviation json_to_csv :=
  (json_to_csv str_container json_dumps with_suffix).
Abbreviation output_path := (output_path with_suffix).

(** ** Fatal and non-fatal ends of a run *)

(** C9.  With both mode flags set the process exits with a non-zero code,
    having printed one message and touched no file. *)
Theorem exclusive_flags_exit_before_files (args : arguments) (file : file_state) :
  flatten args = true → transpose args = true →
  (main args file).2 ≠ 0 ∧
  Forall (λ e, is_file_access e = false) (main args file).1.
Proof.
  intros Hf Ht. unfold main. rewrite Hf, Ht. simpl.
  split; [done|]. by repeat constructor.
Qed.

(** Where the output path is known, an input that is an empty array ends
    the run normally: the output file is created and left empty, without a
    header row, one warning is printed and the exit code is zero. *)
Theorem empty_array_not_fatal (args : arguments) (out : string) :
  flatten args && transpose args = false →
  output_path (input_file args) (output args) (flatten args) (transpose args)
    = Ok out →
  main args (Parsed (JArr []))
  = ([PathExists (input_file args); OpenRead (input_file args);
      PrintOut MsgEmptyArray; OpenWrite out], 0)
  ∧ file_rows out (main args (Parsed (JArr []))).1 None = Some [].
Proof.
  intros Hflags Hout.
  assert (main args (Parsed (JArr []))
          = ([PathExists (input_file args); OpenRead (input_file args);
              PrintOut MsgEmptyArray; OpenWrite out], 0)) as Hmain.
  { unfold main, json_to_csv. rewrite Hflags, Hout. reflexivity. }
  split; [done|]. rewrite Hmain. simpl. by rewrite decide_True.
Qed.
End run_properties.

Lemma exclusive_flags_exit_before_files_witness :
  (main (λ _, "") (λ _, "") (λ p s, Ok (p +:+ s))
     (Arguments "in.json" None true true) Missing).2 ≠ 0 ∧
  Forall (λ e, is_file_access e = false)
    (main (λ _, "") (λ _, "") (λ p s, Ok (p +:+ s))
       (Arguments "in.json" None true true) Missing).1.
Proof.
  apply exclusive_flags_exit_before_files; reflexivity.
Defined.

Lemma empty_array_not_fatal_witness :
  main (λ _, "") (λ _, "") (λ _ _, Raise ValueError)
    (Arguments "in.json" (Some "out.csv") true false) (Parsed (JArr []))
  = ([PathExists "in.json"; OpenRead "in.json";
      PrintOut MsgEmptyArray; OpenWrite "out.csv"], 0)
  ∧ file_rows "out.csv"
      (main (λ _, "") (λ _, "") (λ _ _, Raise ValueError)
         (Arguments "in.json" (Some "out.csv") true false)
         (Parsed (JArr []))).1 None = Some [].
Proof.
  apply empty_array_not_fatal; reflexivity.
Defined.

(** ** The output path that is derived from the input path *)

Section derived_output_path.
Variable str_container : json → string.
Variable json_dumps : json → string.
Variable rename : string → string → outcome string.

Abbreviation main :=
  (main str_container json_dumps (path_with_suffix rename)).

(** The suffixes of flatten and transpose mode do not start with a dot. *)
Lemma output_path_invalid_suffix (json_file_path : string)
    (flatten_arrays transpose : bool) :
  flatten_arrays || transpose = true →
  output_path (path_with_suffix rename) json_file_path None
    flatten_arrays transpose
  = Raise ValueError.
Proof. by destruct flatten_arrays, transpose. Qed.

(** Without [-o], a run in flatten or transpose mode ends at the
    derivation of the output path, before the input is opened. *)
Lemma main_without_output_path (args : arguments) (file : file_state) :
  output args = None →
  flatten args ≠ transpose args →
  file ≠ Missing →
  main args file
  = ([PathExists (input_file args); PrintErr (MsgError ValueError)], 1).
Proof.
  intros Houtput Hmode Hfile. unfold main, json_to_csv. rewrite Houtput.
  destruct (flatten args), (transpose args), file; done.
Qed.

(** C8 fails on the code.  With [--flatten] or [--transpose] and no [-o],
    an input that is an empty array is fatal: [Path.with_suffix] refuses the
    suffix, so the process prints an error and exits with code 1, without
    the warning and without creating a file. *)
Theorem empty_array_fatal_without_output_path (args : arguments) :
  output args = None →
  flatten args ≠ transpose args →
  main args (Parsed (JArr []))
  = ([PathExists (input_file args); PrintErr (MsgError ValueError)], 1) ∧
  ((main args (Parsed (JArr []))).2 ≠ 0) ∧
  (PrintOut MsgEmptyArray ∉ (main args (Parsed (JArr []))).1) ∧
  ∀ out, file_rows out (main args (Parsed (JArr []))).1 None = None.
Proof.
  intros Houtput Hmode.
  rewrite (main_without_output_path args (Parsed (JArr []))) by done.
  split_and!; [done|done| |done].
  intros Hin. by repeat apply elem_of_cons in Hin as [?|Hin];
    try apply elem_of_nil in Hin.
Qed.
End derived_output_path.

Lemma empty_array_fatal_without_output_path_witness :
  let run :=
    main (λ _, "") (λ _, "") (path_with_suffix (λ path suffix, Ok "in.csv"))
      (Arguments "in.json" None true false) (Parsed (JArr [])) in
  run = ([PathExists "in.json"; PrintErr (MsgError ValueError)], 1) ∧
  (run.2 ≠ 0) ∧
  (PrintOut MsgEmptyArray ∉ run.1) ∧
  ∀ out, file_rows out run.1 None = None.
Proof.
  apply (empty_array_fatal_without_output_path (λ _, "") (λ _, "")
           (λ path suffix, Ok "in.csv") (Arguments "in.json" None true false));
    [reflexivity|discriminate].
Defined.

(** ** Two-row headers *)

Lemma create_hierarchical_headers_map (headers : list string) :
  create_hierarchical_headers headers
  = ((fst ∘ header_pair) <$> headers, (snd ∘ header_pair) <$> headers).
Proof.
  unfold create_hierarchical_headers.
  match goal with |- fold_left ?f _ _ = _ => set (add_header := f) end.
  enough (∀ tops subs,
    fold_left add_header headers (tops, subs)
    = (tops ++ ((fst ∘ header_pair) <$> headers),
       subs ++ ((snd ∘ header_pair) <$> headers))) as H by apply (H [] []).
  induction headers as [|header headers IH]; intros tops subs.
  - simpl. by rewrite !app_nil_r.
  - cbn [fold_left].
    destruct (add_header (tops, subs) header) as [tops' subs'] eqn:Hstep.
    rewrite IH, !fmap_cons. unfold add_header in Hstep. simpl in *.
    unfold header_pair.
    destruct (str_in "." header); injection Hstep as <- <-;
      by rewrite <-!app_assoc.
Qed.

(** Where there is a dot the split is at the first one. *)
Lemma str_split1_dot (s : string) :
  str_in "." s = true →
  ∃ before after,
    str_split1 "." s = [before; after] ∧ s = before +:+ "." +:+ after ∧
    str_in "." before = false ∧
    ends_at_first_dot s = bool_decide (after = "").
Proof.
  induction s as [|a s IH]; simpl; [done|].
  destruct (decide (a = "."%char)) as [->|Hne].
  - intros _. by exists "", s.
  - intros Hin. destruct (IH Hin) as (before & after & -> & -> & Hbefore & Hend).
    exists (String a before), after. simpl. by rewrite decide_False.
Qed.

Lemma ends_at_first_dot_without_dot (s : string) :
  str_in "." s = false → ends_at_first_dot s = false.
Proof.
  induction s as [|a s IH]; simpl; [done|]. by destruct (decide (a = "."%char)).
Qed.

Lemma rejoin_header_pair (header : string) :
  rejoin (header_pair header).1 (header_pair header).2 = header
  ↔ ends_at_first_dot header = false.
Proof.
  unfold header_pair. destruct (str_in "." header) eqn:Hin; simpl.
  - destruct (str_split1_dot header Hin)
      as (before & after & -> & Heq & Hbefore & ->).
    simpl. destruct after as [|c after]; simpl.
    + split; [|done]. intros Hbad.
      assert (String.length before = String.length (before +:+ ".")) as Hlen
        by congruence.
      rewrite str_app_length in Hlen. simpl in Hlen. lia.
    + done.
  - split; [|done]. intros _. by apply ends_at_first_dot_without_dot.
Qed.

Lemma rejoin_headers (headers : list string) :
  Forall (λ header, ends_at_first_dot header = false) headers →
  zip_with rejoin (create_hierarchical_headers headers).1
    (create_hierarchical_headers headers).2 = headers.
Proof.
  rewrite create_hierarchical_headers_map. cbn [fst snd].
  induction 1 as [|header headers Hheader _ IH]; [done|].
  rewrite !fmap_cons. cbn [zip_with]. rewrite IH. f_equal.
  by apply rejoin_header_pair.
Qed.

(** C6, as the code has it.  For every record and every key of its
    flattened mapping whose first dot is not its last character, the cells
    the two header rows hold for that key give the key back: top, a dot and
    sub when sub is not empty, top alone otherwise. *)
Theorem split_then_rejoin (item : list (string * json)) (i : nat) (key : string) :
  let keys := dict_keys (flatten_nested_data (JObj item) "" ".") in
  keys !! i = Some key →
  ends_at_first_dot key = false →
  ∃ top_header sub_header,
    (create_hierarchical_headers keys).1 !! i = Some top_header ∧
    (create_hierarchical_headers keys).2 !! i = Some sub_header ∧
    rejoin top_header sub_header = key.
Proof.
  intros keys Hkey Hend. rewrite create_hierarchical_headers_map. cbn [fst snd].
  exists (header_pair key).1, (header_pair key).2.
  rewrite !list_lookup_fmap, Hkey. split_and!; [done..|].
  by apply rejoin_header_pair.
Qed.

Lemma split_then_rejoin_witness :
  let keys :=
    dict_keys
      (flatten_nested_data
         (JObj [("name", JStr "A");
                ("user", JObj [("address", JObj [("city", JStr "X")])])])
         "" ".") in
  ∃ top_header sub_header,
    (create_hierarchical_headers keys).1 !! 1 = Some top_header ∧
    (create_hierarchical_headers keys).2 !! 1 = Some sub_header ∧
    rejoin top_header sub_header = "user.address.city".
Proof.
  apply (split_then_rejoin
           [("name", JStr "A");
            ("user", JObj [("address", JObj [("city", JStr "X")])])]
           1 "user.address.city"); reflexivity.
Defined.

(** C6, as stated, fails: a nested empty key gives a flat key that ends at
    its first dot; sub is then empty and top alone lacks the dot. *)
Lemma split_then_rejoin_loses_final_dot :
  let keys :=
    dict_keys (flatten_nested_data (JObj [("a", JObj [("", JInt 1)])]) "" ".") in
  keys = ["a."] ∧
  create_hierarchical_headers keys = (["a"], [""]) ∧
  rejoin "a" "" ≠ "a.".
Proof. by split_and!. Qed.

(** ** Rows written in plain and flatten mode *)

Lemma written_rows_app (log1 log2 : list event) :
  written_rows (log1 ++ log2) = written_rows log1 ++ written_rows log2.
Proof. apply omap_app. Qed.

Lemma skipped_items_app (log1 log2 : list event) :
  skipped_items (log1 ++ log2) = skipped_items log1 ++ skipped_items log2.
Proof. apply omap_app. Qed.

Lemma objects_length (data : list json) :
  length (objects data) = length (List.filter is_dict data).
Proof.
  induction data as [|item data IH]; [done|].
  destruct item; simpl; by rewrite ?IH.
Qed.

Lemma io_bind_emit {B} (e : event) (k : unit → io B) :
  emit e ≫= k = (e :: (k tt).1, (k tt).2).
Proof. unfold mbind, io_bind, emit. by destruct (k tt). Qed.

Lemma io_bind_lift {A B} (a : A) (k : A → io B) : lift (Ok a) ≫= k = k a.
Proof. unfold mbind, io_bind, lift. by destruct (k a). Qed.

Lemma io_bind_mret {A B} (a : A) (k : A → io B) : mret a ≫= k = k a.
Proof. apply io_bind_lift. Qed.

(** A loop whose body writes one row per record and reports the rest. *)
Lemma for_each_rows (path : string) (cells : list (string * json) → list string)
    (data : list json) :
  let loop :=
    for_each data (λ item,
      match item with
      | JObj kvs => emit (WriteRow path (cells kvs))
      | _ => emit (PrintOut (MsgSkipped item))
      end) in
  loop.2 = Ok tt ∧
  written_rows loop.1 = cells <$> objects data ∧
  skipped_items loop.1 = non_objects data.
Proof.
  induction data as [|item data (IH2 & IHrows & IHskipped)]; [done|].
  cbn [for_each]. unfold written_rows, skipped_items in *.
  destruct item; rewrite io_bind_emit; simpl;
    (split_and!;
     [ exact IH2
     | first [exact IHrows | f_equal; exact IHrows]
     | first [exact IHskipped | f_equal; exact IHskipped] ]).
Qed.

Section rows.
Variable str_container : json → string.
Variable json_dumps : json → string.

Abbreviation row_cells := (row_cells str_container json_dumps).

Lemma dict_writer_row_cells (flatten_arrays : bool) (headers : list string)
    (item : list (string * json)) :
  dict_writer_row headers
    (if flatten_arrays then flatten_row str_container headers item
     else plain_row str_container json_dumps headers item)
  = row_cells flatten_arrays headers item.
Proof.
  unfold dict_writer_row, row_cells, flatten_row, plain_row, dict_of_items.
  destruct flatten_arrays; apply list_fmap_ext; intros i key Hkey;
    apply list_elem_of_lookup_2 in Hkey;
    rewrite (dict_get_update_map _ _ headers key), decide_True by done; done.
Qed.

Lemma write_rows_spec (path : string) (headers : list string)
    (flatten_arrays : bool) (data : list json) :
  let loop :=
    write_rows str_container json_dumps path headers flatten_arrays data in
  loop.2 = Ok tt ∧
  written_rows loop.1 = row_cells flatten_arrays headers <$> objects data ∧
  skipped_items loop.1 = non_objects data.
Proof.
  destruct (for_each_rows path
              (λ kvs, dict_writer_row headers
                        (if flatten_arrays
                         then flatten_row str_container headers kvs
                         else plain_row str_container json_dumps headers kvs))
              data) as (H2 & Hrows & Hskipped).
  split_and!; [done| |done]. unfold write_rows. rewrite Hrows.
  apply list_fmap_ext. intros _ kvs _. apply dict_writer_row_cells.
Qed.

(** In plain mode a null value, like an absent key, gives an empty cell. *)
Lemma plain_null_cell (headers : list string) (item : list (string * json))
    (i : nat) (key : string) :
  headers !! i = Some key →
  dict_get item key = Some JNull ∨ dict_get item key = None →
  row_cells false headers item !! i = Some "".
Proof.
  intros Hkey Hnull. unfold row_cells. rewrite list_lookup_fmap, Hkey. simpl.
  unfold item_get. by destruct Hnull as [-> | ->].
Qed.
End rows.

Section plain_and_flatten_runs.
Variable str_container : json → string.
Variable json_dumps : json → string.
Variable with_suffix : string → string → outcome string.

Abbreviation json_to_csv :=
  (json_to_csv str_container json_dumps with_suffix).
Abbreviation main := (main str_container json_dumps with_suffix).
Abbreviation row_cells := (row_cells str_container json_dumps).
Abbreviation write_rows := (write_rows str_container json_dumps).

(** What a run does once it is known to stay in plain or flatten mode and
    to have found a column. *)
Lemma json_to_csv_flat_run (json_file_path out : string)
    (csv_file_path : option string) (flatten_arrays : bool) (data : list json) :
  data ≠ [] →
  output_path with_suffix json_file_path csv_file_path flatten_arrays false
    = Ok out →
  detect_transpose_structure data && negb flatten_arrays = false →
  extract_keys flatten_arrays data ≠ [] →
  let headers := extract_keys flatten_arrays data in
  json_to_csv (Parsed (JArr data)) json_file_path csv_file_path
    flatten_arrays false
  = ([PathExists json_file_path; OpenRead json_file_path]
       ++ (if flatten_arrays then [PrintOut MsgFlattenMode] else [])
       ++ [OpenWrite out; WriteRow out headers]
       ++ (write_rows out headers flatten_arrays data).1
       ++ [PrintOut (MsgDone out (length data) (length headers)
                    (if flatten_arrays then ModeFlatten else ModePlain))],
     Ok tt).
Proof.
  intros Hdata Hout Hmode Hheaders headers.
  unfold json_to_csv. rewrite Hout. simpl.
  rewrite bool_decide_eq_false_2 by done.
  rewrite andb_true_r, Hmode.
  destruct (write_rows_spec str_container json_dumps out headers
              flatten_arrays data) as (Hloop & _).
  unfold extract_keys in *.
  destruct flatten_arrays; simpl;
    rewrite bool_decide_eq_false_2 by done; simpl; fold headers;
    destruct (write_rows _ _ _ _) as [log r]; simpl in *; by subst r.
Qed.

(** C7, as the code has it.  A non-empty dataset converted in plain or
    flatten mode, to an output path that was given or could be derived,
    ends the run normally.  When at least one column is found, the file
    gets one header row and then one data row per object element, in order;
    every other element is reported as skipped and adds no row.  When no
    column is found the run prints the warning, creates no file and writes
    no row. *)
Theorem data_rows_match_objects (json_file_path out : string)
    (csv_file_path : option string) (flatten_arrays : bool) (data : list json) :
  data ≠ [] →
  output_path with_suffix json_file_path csv_file_path flatten_arrays false
    = Ok out →
  detect_transpose_structure data && negb flatten_arrays = false →
  let headers := extract_keys flatten_arrays data in
  let run :=
    json_to_csv (Parsed (JArr data)) json_file_path csv_file_path
      flatten_arrays false in
  run.2 = Ok tt ∧
  if bool_decide (headers = []) then
    PrintOut MsgNoKeys ∈ run.1 ∧
    Forall (λ e, is_output_event e = false) run.1 ∧
    written_rows run.1 = []
  else
    written_rows run.1
      = headers :: (row_cells flatten_arrays headers <$> objects data) ∧
    length (written_rows run.1) = 1 + length (List.filter is_dict data) ∧
    skipped_items run.1 = non_objects data.
Proof.
  intros Hdata Hout Hmode headers run.
  case_bool_decide as Hheaders.
  { unfold run, headers in *. clear run headers.
    unfold json_to_csv. rewrite Hout. simpl.
    rewrite bool_decide_eq_false_2 by done.
    rewrite andb_true_r, Hmode.
    unfold extract_keys in Hheaders.
    destruct flatten_arrays; simpl;
      rewrite bool_decide_eq_true_2 by done; simpl;
      (split_and!; [done|set_solver|by repeat constructor|done]). }
  unfold run. rewrite (json_to_csv_flat_run _ out) by done. fold headers.
  destruct (write_rows_spec str_container json_dumps out headers
              flatten_arrays data) as (_ & Hrows & Hskipped).
  assert (written_rows
            ([PathExists json_file_path; OpenRead json_file_path]
               ++ (if flatten_arrays then [PrintOut MsgFlattenMode] else [])
               ++ [OpenWrite out; WriteRow out headers]
               ++ (write_rows out headers flatten_arrays data).1
               ++ [PrintOut (MsgDone out (length data) (length headers)
                            (if flatten_arrays then ModeFlatten else ModePlain))])
          = headers :: (row_cells flatten_arrays headers <$> objects data))
    as Hwritten.
  { rewrite !written_rows_app, Hrows. destruct flatten_arrays; simpl;
      by rewrite app_nil_r. }
  cbn [fst snd]. split_and!; [done|done| |].
  - rewrite Hwritten. simpl. by rewrite length_fmap, objects_length.
  - rewrite !skipped_items_app, Hskipped. destruct flatten_arrays; simpl;
      by rewrite app_nil_r.
Qed.

(** C4 fails on the code.  A null value is written as the text [None] in
    flatten mode and in a transposed table; only plain mode gives the empty
    cell. *)
Theorem null_cell_reads_None_outside_plain_mode :
  written_rows
    (main (Arguments "in.json" (Some "out.csv") true false)
       (Parsed (JArr [JObj [("a", JNull)]]))).1
  = [["a"]; ["None"]]
  ∧ written_rows
      (main (Arguments "in.json" (Some "out.csv") false true)
         (Parsed (JArr [JObj [("a", JNull); ("b", JArr [JInt 1])]]))).1
    = [["a"; "b"]; [""; ""]; ["None"; "1"]]
  ∧ written_rows
      (main (Arguments "in.json" (Some "out.csv") false false)
         (Parsed (JArr [JObj [("a", JNull)]]))).1
    = [["a"]; [""]].
Proof. split_and!; reflexivity. Qed.
End plain_and_flatten_runs.

(** C7, as stated, fails: a dataset of one object without keys has one
    object element, yet the run stops at the warning and writes no row. *)
Lemma data_rows_missing_without_columns :
  let data := [JObj []] in
  let run :=
    json_to_csv (λ _, "") (λ _, "") (λ _ _, Raise ValueError)
      (Parsed (JArr data)) "in.json" (Some "out.csv") false false in
  run = ([PathExists "in.json"; OpenRead "in.json"; PrintOut MsgNoKeys], Ok tt) ∧
  written_rows run.1 = [] ∧
  length (List.filter is_dict data) = 1.
Proof. by split_and!. Qed.

Lemma data_rows_match_objects_witness :
  let data := [JObj [("a", JInt 1)]; JStr "x"; JObj [("b", JNull)]] in
  let run :=
    json_to_csv (λ _, "") (λ _, "") (λ _ _, Raise ValueError)
      (Parsed (JArr data)) "in.json" (Some "out.csv") false false in
  run.2 = Ok tt ∧
  written_rows run.1
    = ["a"; "b"]
        :: (row_cells (λ _, "") (λ _, "") false ["a"; "b"] <$> objects data) ∧
  length (written_rows run.1) = 1 + length (List.filter is_dict data) ∧
  skipped_items run.1 = non_objects data.
Proof.
  apply (data_rows_match_objects (λ _, "") (λ _, "") (λ _ _, Raise ValueError)
           "in.json" "out.csv" (Some "out.csv") false
           [JObj [("a", JInt 1)]; JStr "x"; JObj [("b", JNull)]]);
    [done|reflexivity|reflexivity].
Defined.

(** ** Order of the columns *)

Lemma remaining_keys_elem_of (all_keys : gset string)
    (first_item_keys : list string) (k : string) :
  k ∈ remaining_keys all_keys first_item_keys
  ↔ k ∈ all_keys ∧ k ∉ first_item_keys.
Proof.
  unfold remaining_keys. rewrite merge_sort_Permutation, elem_of_elements.
  rewrite elem_of_difference, elem_of_list_to_set. done.
Qed.

Lemma remaining_keys_sorted (all_keys : gset string)
    (first_item_keys : list string) :
  Sorted String.le (remaining_keys all_keys first_item_keys).
Proof. apply (Sorted_merge_sort _). Qed.

Lemma remaining_keys_NoDup (all_keys : gset string)
    (first_item_keys : list string) :
  NoDup (remaining_keys all_keys first_item_keys).
Proof.
  unfold remaining_keys. rewrite merge_sort_Permutation. apply NoDup_elements.
Qed.

Lemma gather_elem_of (flatten_mode : bool) (data : list json)
    (acc : gset string) (k : string) :
  k ∈ gather flatten_mode data acc
  ↔ k ∈ acc ∨ ∃ item, item ∈ data ∧ k ∈ record_keys flatten_mode item.
Proof.
  unfold gather. revert acc.
  induction data as [|item data IH]; intros acc; cbn [fold_left].
  - split; [by left|]. intros [?|(item & Hin & _)]; [done|].
    by apply elem_of_nil in Hin.
  - rewrite IH, elem_of_union, elem_of_list_to_set. split.
    + intros [[?|?]|(item' & Hin & Hk)]; [by left| |].
      * right. exists item. split; [left|done].
      * right. exists item'. split; [by right|done].
    + intros [?|(item' & Hin & Hk)]; [by left; left|].
      apply elem_of_cons in Hin as [->|Hin]; [by left; right|].
      right. by exists item'.
Qed.

(** The loop of [extract_all_keys]. *)
Lemma plain_keys_gathered (data : list json) (acc : gset string) :
  fold_left
    (λ (all_keys : gset string) item,
       if item is JObj kvs then all_keys ∪ list_to_set (dict_keys kvs)
       else all_keys)
    data acc
  = gather false data acc.
Proof.
  unfold gather. revert acc.
  induction data as [|item data IH]; intros acc; cbn [fold_left]; [done|].
  rewrite IH. f_equal. destruct item; cbn [record_keys];
    by rewrite ?list_to_set_nil, ?(right_id_L ∅ (∪)).
Qed.

(** The loop of [extract_all_keys_advanced], past the first element. *)
Lemma flatten_keys_gathered (rest : list (nat * json)) (acc : gset string)
    (first_item_keys : list string) :
  Forall (λ p, p.1 ≠ 0) rest →
  fold_left
    (λ '(all_keys, first_item_keys) '(i, item),
       if is_dict item then
         let flattened := flatten_nested_data item "" "." in
         (all_keys ∪ list_to_set (dict_keys flattened),
          if decide (i = 0) then dict_keys flattened else first_item_keys)
       else (all_keys, first_item_keys))
    rest (acc, first_item_keys)
  = (gather true rest.*2 acc, first_item_keys).
Proof.
  unfold gather. intros Hrest. revert acc.
  induction Hrest as [|[i item] rest Hi _ IH]; intros acc; [done|].
  cbn [fold_left fmap list_fmap snd]. simpl in Hi.
  destruct item; cbn [is_dict record_keys];
    rewrite ?decide_False by done; rewrite IH;
    by rewrite ?list_to_set_nil, ?(right_id_L ∅ (∪)).
Qed.

Lemma extract_keys_first_then_remaining (flatten_mode : bool) (first : json)
    (rest : list json) :
  is_dict first = true →
  extract_keys flatten_mode (first :: rest)
  = record_keys flatten_mode first
      ++ remaining_keys (gather flatten_mode (first :: rest) ∅)
           (record_keys flatten_mode first).
Proof.
  intros Hfirst. destruct first as [| | | | | |kvs]; try done.
  destruct flatten_mode; cbn [extract_keys].
  - unfold extract_all_keys_advanced.
    rewrite bool_decide_eq_false_2 by done.
    cbn [imap fold_left is_dict]. rewrite decide_True by done.
    rewrite flatten_keys_gathered.
    + rewrite fmap_imap.
      replace (imap (λ n, snd ∘ ((λ i item, (i, item)) ∘ S) n) rest)
        with (imap (λ _, id) rest) by done.
      rewrite (imap_const id), list_fmap_id. done.
    + apply Forall_forall. intros [i item] Hin.
      apply elem_of_lookup_imap in Hin as (j & y & [= -> ->] & _). done.
  - unfold extract_all_keys. rewrite bool_decide_eq_false_2 by done.
    by rewrite plain_keys_gathered.
Qed.

Lemma NoDup_only (l : list string) (d : string) :
  NoDup l → (∀ k, k ∈ l ↔ k = d) → l = [d].
Proof.
  intros Hnd Hl. destruct l as [|x l].
  - exfalso. eapply not_elem_of_nil. by apply (Hl d).
  - assert (x = d) as -> by (apply Hl; left).
    destruct l as [|y l]; [done|]. exfalso.
    assert (y = d) as -> by (apply Hl; right; left).
    apply NoDup_cons in Hnd as [Hd _]. apply Hd. left.
Qed.

(** C2.  When the first element of a dataset is an object, the columns are
    the keys of that first record in their own order, followed by the keys
    found only in later records, in increasing lexicographic order and each
    listed once; this holds for plain and for flatten extraction.  In
    particular a first record with keys a, b, c and later records that
    bring the one new key d give exactly a, b, c, d. *)
Theorem first_record_priority (flatten_mode : bool) (first : json)
    (rest : list json) :
  is_dict first = true →
  (∃ later,
     extract_keys flatten_mode (first :: rest)
     = record_keys flatten_mode first ++ later ∧
     Sorted String.le later ∧ NoDup later ∧
     ∀ k, k ∈ later ↔
          (k ∉ record_keys flatten_mode first) ∧
          ∃ item, item ∈ rest ∧ k ∈ record_keys flatten_mode item) ∧
  (∀ a b c d : string,
     record_keys flatten_mode first = [a; b; c] →
     d ∉ [a; b; c] →
     (∃ item, item ∈ rest ∧ d ∈ record_keys flatten_mode item) →
     (∀ item k, item ∈ rest → k ∈ record_keys flatten_mode item →
                k ∈ [a; b; c; d]) →
     extract_keys flatten_mode (first :: rest) = [a; b; c; d]).
Proof.
  intros Hfirst.
  assert (∀ k,
    k ∈ remaining_keys (gather flatten_mode (first :: rest) ∅)
          (record_keys flatten_mode first)
    ↔ (k ∉ record_keys flatten_mode first) ∧
      ∃ item, item ∈ rest ∧ k ∈ record_keys flatten_mode item) as Hlater.
  { intros k. rewrite remaining_keys_elem_of, gather_elem_of. split.
    - intros [[Hempty|(item & Hin & Hk)] Hnot]; [by set_solver|].
      split; [done|]. apply elem_of_cons in Hin as [->|Hin]; [done|].
      by exists item.
    - intros [Hnot (item & Hin & Hk)]. split; [|done].
      right. exists item. split; [by right|done]. }
  rewrite extract_keys_first_then_remaining by done. split.
  - eexists. split_and!;
      [done|apply remaining_keys_sorted|apply remaining_keys_NoDup|done].
  - intros a b c d Hkeys Hd Hbrings Honly. rewrite Hkeys in *.
    change [a; b; c; d] with ([a; b; c] ++ [d]). f_equal.
    apply NoDup_only; [apply remaining_keys_NoDup|].
    intros k. rewrite Hlater. split.
    + intros [Hnot (item & Hin & Hk)].
      specialize (Honly item k Hin Hk).
      rewrite !elem_of_cons in Honly. rewrite !not_elem_of_cons in Hnot.
      destruct Honly as [?|[?|[?|[?|Hnil]]]]; try tauto.
    + by intros ->.
Qed.

Lemma first_record_priority_witness :
  extract_keys false
    [JObj [("a", JInt 1); ("b", JInt 2); ("c", JInt 3)]; JStr "x";
     JObj [("d", JInt 4); ("b", JInt 5)]]
  = ["a"; "b"; "c"; "d"]
  ∧ extract_keys true
      [JObj [("a", JInt 1); ("b", JInt 2); ("c", JInt 3)]; JStr "x";
       JObj [("d", JInt 4); ("b", JInt 5)]]
    = ["a"; "b"; "c"; "d"].
Proof.
  split.
  - refine (proj2 (first_record_priority false
                     (JObj [("a", JInt 1); ("b", JInt 2); ("c", JInt 3)])
                     [JStr "x"; JObj [("d", JInt 4); ("b", JInt 5)]] eq_refl)
              "a" "b" "c" "d" eq_refl _ _ _).
    + rewrite !not_elem_of_cons. split_and!; [done..|apply not_elem_of_nil].
    + eexists. split; [right; left|]. left.
    + intros item k Hin Hk.
      repeat (apply elem_of_cons in Hin as [->|Hin]);
        [by apply elem_of_nil in Hk| |by apply elem_of_nil in Hin].
      simpl in Hk.
      repeat (apply elem_of_cons in Hk as [->|Hk]);
        [do 3 right; left|right; left|by apply elem_of_nil in Hk].
  - refine (proj2 (first_record_priority true
                     (JObj [("a", JInt 1); ("b", JInt 2); ("c", JInt 3)])
                     [JStr "x"; JObj [("d", JInt 4); ("b", JInt 5)]] eq_refl)
              "a" "b" "c" "d" eq_refl _ _ _).
    + rewrite !not_elem_of_cons. split_and!; [done..|apply not_elem_of_nil].
    + eexists. split; [right; left|]. left.
    + intros item k Hin Hk.
      repeat (apply elem_of_cons in Hin as [->|Hin]);
        [by apply elem_of_nil in Hk| |by apply elem_of_nil in Hin].
      vm_compute in Hk.
      repeat (apply elem_of_cons in Hk as [->|Hk]);
        [do 3 right; left|right; left|by apply elem_of_nil in Hk].
Defined.

(** ** Flat keys *)

Lemma avoids_spec (delims : list ascii) (s : string) :
  avoids delims s = true ↔ ∀ c, c ∈ delims → str_in c s = false.
Proof.
  unfold avoids. rewrite forallb_forall. setoid_rewrite <-list_elem_of_In.
  setoid_rewrite negb_true_iff. done.
Qed.

Lemma avoids_cons (delims : list ascii) (a : ascii) (s : string) :
  avoids delims (String a s) = true ↔ (a ∉ delims) ∧ avoids delims s = true.
Proof.
  rewrite !avoids_spec. split.
  - intros H. split.
    + intros Ha. specialize (H a Ha). simpl in H. by rewrite decide_True in H.
    + intros c Hc. specialize (H c Hc). simpl in H. by case_decide.
  - intros [Ha H] c Hc. simpl. rewrite decide_False; [by apply H|].
    by intros ->.
Qed.

(** A text cut where its first delimiter stands is cut in one way only. *)
Lemma cut_unique (delims : list ascii) (k k' s s' : string) :
  avoids delims k = true → avoids delims k' = true →
  at_delim delims s → at_delim delims s' →
  k +:+ s = k' +:+ s' → k = k' ∧ s = s'.
Proof.
  revert k'. induction k as [|a k IH]; intros [|a' k'] Hk Hk' Hs Hs' Heq;
    simpl in Heq.
  - done.
  - subst s. apply avoids_cons in Hk' as [Ha' _]. done.
  - subst s'. apply avoids_cons in Hk as [Ha _]. done.
  - injection Heq as -> Heq.
    apply avoids_cons in Hk as [_ Hk]. apply avoids_cons in Hk' as [_ Hk'].
    destruct (IH k' Hk Hk' Hs Hs' Heq) as [-> ->]. done.
Qed.

Lemma str_nat_inj (i j : nat) : str_nat i = str_nat j → i = j.
Proof.
  unfold str_nat. intros Heq.
  assert (Some (Nat.to_uint i) = Some (Nat.to_uint j)) as [= Huint]
    by (rewrite <-!NilEmpty.usu; congruence).
  rewrite <-(DecimalNat.Unsigned.of_to i), <-(DecimalNat.Unsigned.of_to j).
  congruence.
Qed.

Lemma string_of_uint_avoids_bracket (d : Decimal.uint) :
  avoids ["]"%char] (NilEmpty.string_of_uint d) = true.
Proof.
  induction d; simpl; [done|..]; exact IHd.
Qed.

Lemma str_nat_avoids_bracket (i : nat) : avoids ["]"%char] (str_nat i) = true.
Proof. apply string_of_uint_avoids_bracket. Qed.

Lemma tokens_at_delim (p : path) : at_delim ["."%char; "["%char] (tokens p).
Proof.
  destruct p as [|[k|i] p]; simpl; [done|left|right; left].
Qed.

Lemma extend_nonempty (parent_key : string) (s : step) :
  parent_key ≠ "" →
  extend "." parent_key s = parent_key +:+ token s ∧
  extend "." parent_key s ≠ "".
Proof.
  intros Hne. destruct parent_key as [|a parent_key]; [done|].
  by destruct s.
Qed.

Lemma flat_key_from_tokens (parent_key : string) (p : path) :
  parent_key ≠ "" → flat_key_from parent_key p = parent_key +:+ tokens p.
Proof.
  revert parent_key. induction p as [|s p IH]; intros parent_key Hne; simpl.
  - by rewrite str_app_nil_r.
  - destruct (extend_nonempty parent_key s Hne) as [Heq Hne'].
    unfold flat_key_from in *. rewrite IH by done.
    by rewrite Heq, str_app_assoc.
Qed.

Lemma tokens_inj (p q : path) :
  Forall plain_step p → Forall plain_step q → tokens p = tokens q → p = q.
Proof.
  intros Hp. revert q.
  induction Hp as [|s p Hs _ IH]; intros q Hq Heq; destruct Hq as [|s' q Hs' Hq].
  - done.
  - by destruct s'.
  - by destruct s.
  - destruct s as [k|i], s' as [k'|i']; simpl in Heq; try done.
    + injection Heq as Heq.
      apply (cut_unique ["."%char; "["%char]) in Heq as [-> Heq];
        auto using tokens_at_delim.
      f_equal. by apply IH.
    + injection Heq as Heq. rewrite !str_app_assoc in Heq.
      apply (cut_unique ["]"%char]) in Heq as [Hi Heq];
        auto using str_nat_avoids_bracket; try (by left).
      apply str_nat_inj in Hi as ->. injection Heq as Heq.
      f_equal. by apply IH.
Qed.

(** The record's own keys being non-empty, a path and its flat key
    determine each other. *)
Lemma flat_key_inj (k k' : string) (p q : path) :
  k ≠ "" → k' ≠ "" →
  Forall plain_step (Key k :: p) → Forall plain_step (Key k' :: q) →
  flat_key (Key k :: p) = flat_key (Key k' :: q) →
  Key k :: p = Key k' :: q.
Proof.
  intros Hk Hk' Hp Hq Heq.
  apply Forall_cons in Hp as [Hkp Hp]. apply Forall_cons in Hq as [Hkq Hq].
  unfold flat_key in Heq. simpl in Heq.
  change (flat_key_from k p = flat_key_from k' q) in Heq.
  rewrite !flat_key_from_tokens in Heq by done.
  apply (cut_unique ["."%char; "["%char]) in Heq as [-> Heq];
    auto using tokens_at_delim.
  f_equal. by apply tokens_inj.
Qed.

Lemma flat_key_from_inj (parent_key : string) (p q : path) :
  parent_key ≠ "" → Forall plain_step p → Forall plain_step q →
  flat_key_from parent_key p = flat_key_from parent_key q → p = q.
Proof.
  intros Hne Hp Hq Heq. rewrite !flat_key_from_tokens in Heq by done.
  apply (inj _) in Heq. by apply tokens_inj.
Qed.

(** *** The scalar positions of a value *)

Lemma elem_of_enumerate_from {A B} (body : nat → A → list B) (n : nat)
    (xs : list A) (y : B) :
  y ∈ enumerate_from body n xs ↔ ∃ i x, xs !! i = Some x ∧ y ∈ body (n + i) x.
Proof.
  revert n. induction xs as [|x xs IH]; intros n; simpl.
  - split; [by intros ?%elem_of_nil|]. by intros (i & x & ? & _).
  - rewrite elem_of_app, IH. split.
    + intros [Hy|(i & x' & Hi & Hy)].
      * exists 0, x. by rewrite Nat.add_0_r.
      * exists (S i), x'. by rewrite Nat.add_succ_r.
    + intros ([|i] & x' & Hi & Hy); simpl in Hi.
      * left. injection Hi as ->. by rewrite Nat.add_0_r in Hy.
      * right. exists i, x'. by rewrite Nat.add_succ_r in Hy.
Qed.

Lemma paths_obj (kvs : list (string * json)) :
  paths (JObj kvs) = kvs ≫= λ kv, (Key kv.1 ::.) <$> paths kv.2.
Proof.
  unfold paths. simpl. induction kvs as [|[k v] kvs IH]; [done|].
  rewrite !bind_cons, fmap_app, IH. f_equal.
  by rewrite <-!list_fmap_compose.
Qed.

Lemma paths_arr_from (n : nat) (xs : list json) :
  (enumerate_from (λ i x, under (Index i) <$> scalar_positions x) n xs).*1
  = enumerate_from (λ i x, (Index i ::.) <$> paths x) n xs.
Proof.
  revert n. induction xs as [|x xs IH]; intros n; [done|].
  simpl. rewrite fmap_app, IH. f_equal. unfold paths.
  by rewrite <-!list_fmap_compose.
Qed.

Lemma paths_arr (xs : list json) :
  paths (JArr xs) = enumerate_from (λ i x, (Index i ::.) <$> paths x) 0 xs.
Proof. apply paths_arr_from. Qed.

Lemma paths_scalar (v : json) :
  is_dict v || is_list v = false → paths v = [[]].
Proof. by destruct v. Qed.

Lemma keys_avoid_obj (delims : list ascii) (kvs : list (string * json)) :
  keys_avoid delims (JObj kvs) = true ↔
  ∀ k v, (k, v) ∈ kvs → avoids delims k = true ∧ keys_avoid delims v = true.
Proof.
  simpl. rewrite forallb_forall. setoid_rewrite <-list_elem_of_In.
  setoid_rewrite andb_true_iff. split.
  - intros H k v Hin. apply (H (k, v) Hin).
  - intros H [k v] Hin. by apply H.
Qed.

Lemma keys_avoid_arr (delims : list ascii) (xs : list json) :
  keys_avoid delims (JArr xs) = true ↔
  ∀ x, x ∈ xs → keys_avoid delims x = true.
Proof.
  simpl. rewrite forallb_forall. by setoid_rewrite <-list_elem_of_In.
Qed.

Lemma paths_plain (v : json) :
  keys_avoid ["."%char; "["%char] v = true →
  Forall (Forall plain_step) (paths v).
Proof.
  induction v as [| | | | |xs IH|kvs IH] using json_nested_ind;
    try (intros _; by repeat constructor).
  - rewrite keys_avoid_arr, paths_arr. intros Hxs.
    apply Forall_forall. intros p Hp.
    apply elem_of_enumerate_from in Hp as (i & x & Hi & Hp).
    apply list_elem_of_fmap in Hp as (p' & -> & Hp').
    apply list_elem_of_lookup_2 in Hi. rewrite Forall_forall in IH.
    constructor; [done|].
    specialize (IH x Hi (Hxs x Hi)). rewrite Forall_forall in IH. by apply IH.
  - rewrite keys_avoid_obj, paths_obj. intros Hkvs.
    apply Forall_forall. intros p Hp.
    apply list_elem_of_bind in Hp as ([k v] & Hp & Hin).
    apply list_elem_of_fmap in Hp as (p' & -> & Hp').
    destruct (Hkvs k v Hin) as [Hk Hv]. rewrite Forall_forall in IH.
    constructor; [done|].
    specialize (IH (k, v) Hin Hv). rewrite Forall_forall in IH. by apply IH.
Qed.

Lemma unique_keys_obj (kvs : list (string * json)) :
  unique_keys (JObj kvs) = true ↔
  NoDup kvs.*1 ∧ ∀ k v, (k, v) ∈ kvs → unique_keys v = true.
Proof.
  simpl. rewrite andb_true_iff, bool_decide_eq_true, forallb_forall.
  setoid_rewrite <-list_elem_of_In. split.
  - intros [Hnd H]. split; [done|]. intros k v Hin. apply (H (k, v) Hin).
  - intros [Hnd H]. split; [done|]. intros [k v] Hin. by eapply H.
Qed.

Lemma unique_keys_arr (xs : list json) :
  unique_keys (JArr xs) = true ↔ ∀ x, x ∈ xs → unique_keys x = true.
Proof.
  simpl. rewrite forallb_forall. by setoid_rewrite <-list_elem_of_In.
Qed.

Lemma paths_NoDup (v : json) : unique_keys v = true → NoDup (paths v).
Proof.
  induction v as [| | | | |xs IH|kvs IH] using json_nested_ind;
    try (intros _; apply NoDup_singleton).
  - rewrite unique_keys_arr, paths_arr. intros Hxs. generalize 0.
    induction xs as [|x xs IHxs]; intros n; simpl; [apply NoDup_nil_2|].
    apply Forall_cons in IH as [IHx IH].
    apply NoDup_app. split_and!.
    + apply (NoDup_fmap_2 _). apply IHx, Hxs. left.
    + intros p Hp Hrest.
      apply list_elem_of_fmap in Hp as (p' & -> & _).
      apply elem_of_enumerate_from in Hrest as (i & x' & _ & Hrest).
      apply list_elem_of_fmap in Hrest as (q & [= Hn _] & _). lia.
    + apply IHxs; [done|]. intros x' Hx'. apply Hxs. by right.
  - rewrite unique_keys_obj, paths_obj. intros [Hnd Hkvs].
    induction kvs as [|[k v] kvs IHkvs]; [apply NoDup_nil_2|].
    rewrite bind_cons. apply Forall_cons in IH as [IHv IH].
    simpl in Hnd. apply NoDup_cons in Hnd as [Hk Hnd].
    apply NoDup_app. split_and!.
    + apply (NoDup_fmap_2 _). apply IHv. apply (Hkvs k). left.
    + intros p Hp Hrest.
      apply list_elem_of_fmap in Hp as (p' & -> & _).
      apply list_elem_of_bind in Hrest as ([k' v'] & Hrest & Hin).
      apply list_elem_of_fmap in Hrest as (q & [= <- _] & _).
      apply Hk. apply list_elem_of_fmap. by exists (k, v').
    + apply IHkvs; [done..|]. intros k' v' Hin. apply (Hkvs k'). by right.
Qed.

(** *** The flattener against the scalar positions *)

Lemma flat_items_keys (v : json) (parent_key : string) :
  (flat_items v parent_key).*1 = flat_key_from parent_key <$> paths v.
Proof. unfold flat_items, paths. by rewrite <-!list_fmap_compose. Qed.

Lemma flat_items_obj (kvs : list (string * json)) (parent_key : string) :
  flat_items (JObj kvs) parent_key
  = kvs ≫= λ kv, flat_items kv.2 (dict_child_key parent_key "." kv.1).
Proof.
  unfold flat_items. simpl. induction kvs as [|[k v] kvs IH]; [done|].
  rewrite !bind_cons, fmap_app, IH. f_equal.
  by rewrite <-!list_fmap_compose.
Qed.

Lemma flat_items_arr_from (n : nat) (xs : list json) (parent_key : string) :
  (λ pv, (flat_key_from parent_key pv.1, pv.2))
    <$> enumerate_from (λ i x, under (Index i) <$> scalar_positions x) n xs
  = enumerate_from (λ i x, flat_items x (list_child_key parent_key i)) n xs.
Proof.
  revert n. induction xs as [|x xs IH]; intros n; [done|].
  simpl. rewrite fmap_app, IH. f_equal. unfold flat_items.
  by rewrite <-!list_fmap_compose.
Qed.

Lemma enumerate_from_ext {A B} (f g : nat → A → list B) (n : nat) (xs : list A) :
  (∀ i x, x ∈ xs → f i x = g i x) →
  enumerate_from f n xs = enumerate_from g n xs.
Proof.
  revert n. induction xs as [|x xs IH]; intros n Hfg; [done|].
  simpl. rewrite Hfg by left. rewrite IH; [done|].
  intros i x' Hx'. apply Hfg. by right.
Qed.

Lemma dict_update_enumerate_of_items {A V} (d : dict V)
    (f : nat → A → list (string * V)) (n : nat) (xs : list A) :
  dict_update d (enumerate_from (λ i x, dict_of_items (f i x)) n xs)
  = dict_update d (enumerate_from f n xs).
Proof.
  revert d n. induction xs as [|x xs IH]; intros d n; [done|].
  simpl. by rewrite !dict_update_app, dict_update_of_items, IH.
Qed.

(** For any value, the flattened mapping is the dictionary made of one entry
    per scalar position, in order; entries that share a flat key merge. *)
Lemma flatten_as_dict (v : json) (parent_key : string) :
  flatten_nested_data v parent_key "." = dict_of_items (flat_items v parent_key).
Proof.
  revert parent_key.
  induction v as [| | | | |xs IH|kvs IH] using json_nested_ind;
    intros parent_key; try done.
  - change (dict_of_items
              (enumerate_from
                 (λ i value,
                    if is_dict value || is_list value
                    then flatten_nested_data value
                           (list_child_key parent_key i) "."
                    else [(list_child_key parent_key i, value)]) 0 xs)
            = dict_of_items (flat_items (JArr xs) parent_key)).
    rewrite (enumerate_from_ext _
               (λ i x, dict_of_items
                         (flat_items x (list_child_key parent_key i)))).
    + unfold dict_of_items at 1 3. rewrite dict_update_enumerate_of_items.
      unfold flat_items at 2. cbn [scalar_positions].
      by rewrite flat_items_arr_from.
    + intros i x Hx. rewrite Forall_forall in IH.
      destruct (is_dict x || is_list x) eqn:Hcontainer; [by apply IH|].
      by destruct x.
  - change (dict_of_items
              (kvs ≫= (λ kv, flatten_nested_data kv.2
                               (dict_child_key parent_key "." kv.1) "."))
            = dict_of_items (flat_items (JObj kvs) parent_key)).
    rewrite (Forall_bind_ext _
               (λ kv, dict_of_items
                        (flat_items kv.2
                           (dict_child_key parent_key "." kv.1)))).
    + unfold dict_of_items at 1 3. rewrite dict_update_bind_of_items.
      by rewrite flat_items_obj.
    + eapply Forall_impl; [exact IH|]. intros [k v] Hkv. apply Hkv.
Qed.

Lemma list_child_key_nonempty (parent_key : string) (i : nat) :
  list_child_key parent_key i ≠ "".
Proof. by destruct parent_key. Qed.

Lemma dict_child_key_nonempty (parent_key key : string) :
  parent_key ≠ "" ∨ key ≠ "" → dict_child_key parent_key "." key ≠ "".
Proof. destruct parent_key; [by intros [?|?]|done]. Qed.

Lemma flat_items_NoDup (v : json) (parent_key : string) :
  parent_key ≠ "" → keys_avoid ["."%char; "["%char] v = true →
  unique_keys v = true → NoDup (flat_items v parent_key).*1.
Proof.
  intros Hne Hplain Hunique. rewrite flat_items_keys.
  apply NoDup_fmap_2_strong; [|by apply paths_NoDup].
  intros p q Hp Hq. pose proof (paths_plain v Hplain) as Hall.
  rewrite Forall_forall in Hall. apply flat_key_from_inj; auto.
Qed.

(** Below a key that is not empty, the flattener gives one entry per scalar
    position when keys are distinct and hold neither ['.'] nor ['[']. *)
Lemma flatten_below (v : json) (parent_key : string) :
  parent_key ≠ "" → keys_avoid ["."%char; "["%char] v = true →
  unique_keys v = true →
  flatten_nested_data v parent_key "." = flat_items v parent_key.
Proof.
  intros Hne Hplain Hunique. rewrite flatten_as_dict.
  apply dict_of_items_fresh. by apply flat_items_NoDup.
Qed.

Lemma paths_of_record (item : list (string * json)) (p : path) :
  p ∈ paths (JObj item) →
  ∃ k v q, p = Key k :: q ∧ (k, v) ∈ item ∧ q ∈ paths v.
Proof.
  rewrite paths_obj. intros Hp.
  apply list_elem_of_bind in Hp as ([k v] & Hp & Hin).
  apply list_elem_of_fmap in Hp as (q & -> & Hq). by exists k, v, q.
Qed.

Lemma top_keys_nonempty_spec (item : list (string * json)) :
  top_keys_nonempty item = true ↔ ∀ k v, (k, v) ∈ item → k ≠ "".
Proof.
  unfold top_keys_nonempty. rewrite forallb_forall.
  setoid_rewrite <-list_elem_of_In. setoid_rewrite negb_true_iff.
  setoid_rewrite bool_decide_eq_false. split.
  - intros H k v Hin. apply (H (k, v) Hin).
  - intros H [k v] Hin. by eapply H.
Qed.

(** C5, as the code has it.  For a record whose keys, at every depth, hold
    neither ['.'] nor ['['], and whose own keys are not empty, the flattened
    mapping has exactly one entry per scalar position, under the flat key of
    its path, and two different paths never have the same flat key. *)
Theorem flat_keys_identify_positions (item : list (string * json)) :
  keys_avoid ["."%char; "["%char] (JObj item) = true →
  top_keys_nonempty item = true →
  unique_keys (JObj item) = true →
  flatten_nested_data (JObj item) "" "."
  = (λ pv, (flat_key pv.1, pv.2)) <$> scalar_positions (JObj item)
  ∧ ∀ p q, p ∈ paths (JObj item) → q ∈ paths (JObj item) →
           flat_key p = flat_key q → p = q.
Proof.
  intros Hplain Htop Hunique.
  pose proof (paths_plain _ Hplain) as Hall. rewrite Forall_forall in Hall.
  rewrite top_keys_nonempty_spec in Htop.
  assert (∀ p q, p ∈ paths (JObj item) → q ∈ paths (JObj item) →
                 flat_key p = flat_key q → p = q) as Hinj.
  { intros p q Hp Hq Heq.
    pose proof (Hall p Hp) as Hpp. pose proof (Hall q Hq) as Hqq.
    apply paths_of_record in Hp as (k & v & p' & -> & Hk & _).
    apply paths_of_record in Hq as (k' & v' & q' & -> & Hk' & _).
    apply flat_key_inj; eauto. }
  split; [|done]. rewrite flatten_as_dict.
  apply (dict_of_items_fresh (flat_items (JObj item) "")).
  rewrite flat_items_keys.
  apply NoDup_fmap_2_strong; [done|by apply paths_NoDup].
Qed.

Lemma flat_keys_identify_positions_witness :
  let item :=
    [("id", JInt 1);
     ("user", JObj [("name", JStr "A"); ("", JNull)]);
     ("projects", JArr [JObj [("name", JStr "p")]; JArr [JInt 2]; JInt 3])] in
  flatten_nested_data (JObj item) "" "."
  = (λ pv, (flat_key pv.1, pv.2)) <$> scalar_positions (JObj item)
  ∧ ∀ p q, p ∈ paths (JObj item) → q ∈ paths (JObj item) →
           flat_key p = flat_key q → p = q.
Proof.
  apply flat_keys_identify_positions; reflexivity.
Defined.

(** C5, as stated, fails: a key that holds a dot and a nested key reach the
    same flat key, and the mapping keeps one entry for the two positions. *)
Lemma flat_keys_collide :
  let item := [("a.b", JInt 1); ("a", JObj [("b", JInt 2)])] in
  [Key "a.b"] ∈ paths (JObj item) ∧
  [Key "a"; Key "b"] ∈ paths (JObj item) ∧
  [Key "a.b"] ≠ [Key "a"; Key "b"] ∧
  flat_key [Key "a.b"] = flat_key [Key "a"; Key "b"] ∧
  flatten_nested_data (JObj item) "" "." = [("a.b", JInt 2)].
Proof.
  split_and!; [left|right; left|done|reflexivity|reflexivity].
Qed.

(** ** The transposer, record by record *)

Lemma extract_entry_fields (prefix key : string) (value : json)
    (acc : extracted) :
  extract_entry prefix key value acc
  = fold_left apply_field (entry_fields prefix key value) acc.
Proof.
  revert prefix key acc.
  induction value as [| | | | |xs _|kvs IH] using json_nested_ind;
    intros prefix key [single_values array_groups]; try done.
  - cbn [extract_entry entry_fields fold_left apply_field add_array fst snd].
    f_equal. fold (group_name prefix).
    destruct (dict_get array_groups (group_name prefix)) eqn:Hget.
    + by rewrite Hget.
    + by rewrite dict_get_set_eq, dict_set_set_eq.
  - cbn [extract_entry entry_fields].
    generalize (dict_child_key prefix "." key) as full_key. intros full_key.
    generalize (single_values, array_groups) as acc. clear -IH.
    induction kvs as [|[k v] kvs IHkvs]; intros acc; [done|].
    apply Forall_cons in IH as [IHv IH].
    rewrite bind_cons, fold_left_app, <-IHv. by apply IHkvs.
Qed.

Lemma extract_arrays_fields (item : list (string * json)) (acc : extracted) :
  extract_arrays item "" acc = fold_left apply_field (record_fields item) acc.
Proof.
  unfold extract_arrays, record_fields. revert acc.
  induction item as [|[k v] item IH]; intros acc; [done|].
  rewrite bind_cons, fold_left_app. cbn [fold_left].
  by rewrite extract_entry_fields, IH.
Qed.

Lemma apply_fields_split (fs : list field) (acc : extracted) :
  fold_left apply_field fs acc
  = (dict_update acc.1 (singles fs), fold_left add_array (arrays fs) acc.2).
Proof.
  revert acc. induction fs as [|f fs IH]; intros [single_values array_groups].
  - done.
  - cbn [fold_left]. rewrite IH. by destruct f.
Qed.

Lemma group_entries_app (ag1 ag2 : dict (dict (list json))) :
  group_entries (ag1 ++ ag2) = group_entries ag1 ++ group_entries ag2.
Proof. apply bind_app. Qed.

Lemma group_entries_cons (g : string) (arrs : dict (list json))
    (ag : dict (dict (list json))) :
  group_entries ((g, arrs) :: ag)
  = ((λ a, (g, a.1, a.2)) <$> arrs) ++ group_entries ag.
Proof. done. Qed.

Lemma group_entries_slots (ag : dict (dict (list json))) (g : string)
    (arrs : dict (list json)) (k : string) :
  (g, arrs) ∈ ag → k ∈ arrs.*1 → (g, k) ∈ (group_entries ag).*1.
Proof.
  intros Hg Hk. apply list_elem_of_fmap in Hk as ([k' xs] & -> & Hk).
  apply list_elem_of_fmap. exists (g, k', xs). split; [done|].
  apply list_elem_of_bind. exists (g, arrs). split; [|done].
  apply list_elem_of_fmap. by exists (k', xs).
Qed.

(** Filing an array under a slot that is still free adds it to the entries. *)
Lemma add_array_entries (ag : dict (dict (list json)))
    (slot : string * string * list json) :
  slot.1 ∉ (group_entries ag).*1 →
  group_entries (add_array ag slot) ≡ₚ group_entries ag ++ [slot].
Proof.
  destruct slot as [[g k] xs]. cbn [fst add_array]. intros Hfree.
  destruct (decide (g ∈ ag.*1)) as [Hg|Hg].
  - destruct (dict_set_present ag g
                (dict_set (default [] (dict_get ag g)) k xs) Hg)
      as (ag1 & arrs & ag2 & Hag & Hag1 & ->).
    assert (dict_get ag g = Some arrs) as ->
      by (rewrite Hag; by apply dict_get_app_first).
    assert (k ∉ arrs.*1) as Hk.
    { intros Hk. apply Hfree. apply (group_entries_slots ag g arrs); [|done].
      rewrite Hag. apply elem_of_app. right. left. }
    cbn [default]. rewrite (dict_set_fresh arrs) by done.
    rewrite Hag, !group_entries_app, !group_entries_cons, fmap_app.
    rewrite <-!app_assoc. apply Permutation_app_head, Permutation_app_head.
    apply Permutation_app_comm.
  - assert (dict_get ag g = None) as -> by by apply dict_get_None.
    rewrite dict_set_fresh by done.
    by rewrite group_entries_app, group_entries_cons, app_nil_r.
Qed.

Lemma add_arrays_entries (slots : list (string * string * list json))
    (ag : dict (dict (list json))) :
  NoDup (group_entries ag ++ slots).*1 →
  group_entries (fold_left add_array slots ag) ≡ₚ group_entries ag ++ slots.
Proof.
  revert ag. induction slots as [|slot slots IH]; intros ag Hfree.
  - by rewrite app_nil_r.
  - cbn [fold_left].
    assert (group_entries (add_array ag slot) ≡ₚ group_entries ag ++ [slot])
      as Hstep.
    { apply add_array_entries. rewrite fmap_app, fmap_cons in Hfree.
      apply NoDup_app in Hfree as (_ & Hfree & _).
      intros Hin. apply (Hfree _ Hin). left. }
    rewrite IH.
    + rewrite Hstep, <-app_assoc. done.
    + rewrite Hstep, <-app_assoc. done.
Qed.

(** The longest array of [array_groups]. *)
Lemma fold_left_max (lengths : list nat) (m : nat) :
  fold_left Nat.max lengths m = m `max` max_list lengths.
Proof.
  revert m. induction lengths as [|n lengths IH]; intros m; simpl.
  - lia.
  - rewrite IH. lia.
Qed.

Lemma max_list_app (l1 l2 : list nat) :
  max_list (l1 ++ l2) = max_list l1 `max` max_list l2.
Proof. induction l1 as [|n l1 IH]; simpl; lia. Qed.

Lemma max_length_of_entries (ag : dict (dict (list json))) :
  max_length_of ag = max_list ((λ e, length e.2) <$> group_entries ag).
Proof.
  unfold max_length_of.
  enough (∀ m,
    fold_left
      (λ max_length (group : dict (list json)),
         fold_left (λ max_length arr, max_length `max` length arr)
           group.*2 max_length) ag.*2 m
    = m `max` max_list ((λ e, length e.2) <$> group_entries ag)) as H
    by (rewrite H; lia).
  induction ag as [|[g arrs] ag IH]; intros m; [simpl; lia|].
  cbn [fmap list_fmap fold_left snd]. rewrite IH.
  rewrite group_entries_cons, fmap_app.
  assert (∀ m, fold_left (λ max_length (arr : list json),
                            max_length `max` length arr) arrs.*2 m
               = m `max` max_list ((λ e : string * string * list json,
                                      length e.2)
                                     <$> ((λ a, (g, a.1, a.2)) <$> arrs)))
    as ->.
  { clear. induction arrs as [|[k xs] arrs IH]; intros m; [simpl; lia|].
    cbn [fmap list_fmap fold_left snd]. rewrite IH. simpl. lia. }
  rewrite max_list_app. lia.
Qed.

(** The row of index [i] is filled by the single cells, then by the array
    cells. *)
Lemma dict_update_fmap {A V} (f : A → string * V) (l : list A) (d : dict V) :
  fold_left (λ d x, dict_set d (f x).1 (f x).2) l d = dict_update d (f <$> l).
Proof.
  revert d. induction l as [|x l IH]; intros d; [done|]. apply IH.
Qed.

Lemma cell_at (i : nat) (values : list json) :
  (if decide (i < length values) then nth i values JNull else JStr "")
  = default (JStr "") (values !! i).
Proof.
  case_decide as Hi.
  - apply lookup_lt_is_Some_2 in Hi as [x Hx].
    by rewrite Hx, (nth_lookup_Some _ _ _ x).
  - rewrite (proj2 (lookup_ge_None values i)); [done|lia].
Qed.

Lemma transposed_row_cells (acc : extracted) (i : nat) :
  transposed_row acc i
  = dict_update [] (single_cells i acc.1 ++ array_cells i (group_entries acc.2)).
Proof.
  destruct acc as [single_values array_groups]. unfold transposed_row.
  cbn [fst snd]. rewrite dict_update_app.
  assert (fold_left
            (λ (row : dict json) (kv : string * json),
               dict_set row kv.1 (if decide (i = 0) then kv.2 else JStr ""))
            single_values []
          = dict_update [] (single_cells i single_values)) as ->
    by apply (dict_update_fmap
                (λ kv, (kv.1, if decide (i = 0) then kv.2 else JStr ""))).
  generalize (dict_update [] (single_cells i single_values)) as row.
  induction array_groups as [|[g arrs] array_groups IH]; intros row; [done|].
  cbn [fold_left]. rewrite IH, group_entries_cons.
  unfold array_cells. rewrite fmap_app, dict_update_app. f_equal.
  clear. revert row. induction arrs as [|[k values] arrs IH]; intros row;
    [done|].
  cbn [fold_left fmap list_fmap dict_update fst snd]. rewrite IH.
  unfold dict_update. f_equal. rewrite <-cell_at. unfold field_name.
  cbn [fst snd]. by repeat case_decide.
Qed.

Lemma field_name_of_holder (holder key : string) :
  holder ≠ "root" →
  field_name (group_name holder, key) = dict_child_key holder "." key.
Proof.
  intros Hroot. unfold field_name. destruct holder; cbn [group_name fst snd].
  - by rewrite decide_True.
  - by rewrite decide_False.
Qed.

(** The columns of the fields are those of the singles and of the arrays. *)
Lemma columns_split (fs : list field) :
  Forall (λ f, if f is ArrayField holder _ _ then holder ≠ "root" else True) fs →
  column <$> fs ≡ₚ (singles fs).*1 ++ (field_name ∘ fst <$> arrays fs).
Proof.
  induction 1 as [|f fs Hf _ IH]; [done|].
  destruct f as [full_key value|holder key values]; cbn;
    fold (singles fs); fold (arrays fs).
  - by rewrite IH.
  - rewrite <-Permutation_middle, IH, field_name_of_holder by done.
    reflexivity.
Qed.

Lemma array_lengths_arrays (fs : list field) :
  array_lengths fs = (λ e, length e.2) <$> arrays fs.
Proof.
  induction fs as [|f fs IH]; [done|].
  destruct f; cbn; [exact IH|f_equal; exact IH].
Qed.

Lemma transpose_item_rows (item : list (string * json)) (m : nat) :
  max_length_of (extract_arrays item "" ([], [])).2 = m →
  transpose_item item
  = if decide (m = 0) then [JObj item]
    else JObj <$> (transposed_row (extract_arrays item "" ([], []))
                     <$> seq 0 m).
Proof.
  intros <-. unfold transpose_item. case_decide; [done|].
  by rewrite <-list_fmap_compose.
Qed.

(** C1, as the code has it.  Take a record in which no two fields share a
    dotted path and no array lies directly in an object whose dotted path is
    the word kept for the top level.  When its longest array has m > 0
    elements, the transposer emits exactly m rows; the columns of each row
    are the dotted paths of the fields; in the row of index i an array field
    holds its element of index i, or the empty string past its end, and a
    single value holds its value when i is 0 and the empty string after.
    When the record has no array, or only empty arrays, it is emitted
    unchanged as one row. *)
Theorem transposed_rows_of_record (item : list (string * json)) :
  distinct_columns (record_fields item) →
  (longest_array (record_fields item) = 0 → transpose_item item = [JObj item])
  ∧ (0 < longest_array (record_fields item) →
     ∃ rows : list (dict json),
       transpose_item item = JObj <$> rows ∧
       length rows = longest_array (record_fields item) ∧
       ∀ i row, rows !! i = Some row →
         row.*1 ≡ₚ column <$> record_fields item ∧
         ∀ f, f ∈ record_fields item →
              dict_get row (column f) = Some (expected_cell f i)).
Proof.
  intros [Hcolumns Hroot]. set (fs := record_fields item) in *.
  pose proof (columns_split fs Hroot) as Hsplit.
  assert (NoDup ((singles fs).*1 ++ (field_name ∘ fst <$> arrays fs)))
    as Hcells by by rewrite <-Hsplit.
  assert (NoDup (arrays fs).*1) as Hslots.
  { apply NoDup_app in Hcells as (_ & _ & Harrays).
    rewrite list_fmap_compose in Harrays. by apply NoDup_fmap_1 in Harrays. }
  assert (extract_arrays item "" ([], [])
          = (singles fs, fold_left add_array (arrays fs) [])) as Hacc.
  { rewrite extract_arrays_fields, apply_fields_split. cbn [fst snd]. f_equal.
    apply (dict_update_fresh []). by apply NoDup_app in Hcells as (? & _). }
  pose proof (add_arrays_entries (arrays fs) [] Hslots) as Hentries.
  cbn [group_entries mbind list_bind app] in Hentries.
  fold (group_entries (fold_left add_array (arrays fs) [])) in Hentries.
  assert (max_length_of (extract_arrays item "" ([], [])).2
          = longest_array fs) as Hmax.
  { rewrite Hacc. cbn [snd]. rewrite max_length_of_entries.
    unfold longest_array. by rewrite array_lengths_arrays, Hentries. }
  rewrite (transpose_item_rows item _ Hmax). split.
  - intros ->. by rewrite decide_True.
  - intros Hpos. rewrite decide_False by lia.
    eexists. split_and!; [done|by rewrite length_fmap, length_seq|].
    intros i row Hrow. rewrite list_lookup_fmap in Hrow.
    destruct (seq 0 (longest_array fs) !! i) as [i'|] eqn:Hi; [|done].
    apply lookup_seq in Hi as [-> _]. injection Hrow as <-. cbn [Nat.add].
    rewrite transposed_row_cells, Hacc. cbn [fst snd].
    assert ((single_cells i (singles fs)
               ++ array_cells i
                    (group_entries (fold_left add_array (arrays fs) []))).*1
            ≡ₚ column <$> fs) as Hkeys.
    { rewrite Hsplit, fmap_app. unfold single_cells, array_cells.
      rewrite <-!list_fmap_compose, Hentries. done. }
    rewrite (dict_update_fresh []) by (cbn [app]; by rewrite Hkeys).
    split; [done|]. intros f Hf. cbn [app].
    apply dict_get_elem_of; [by rewrite Hkeys|].
    apply elem_of_app. destruct f as [full_key value|holder key values].
    + left. apply list_elem_of_fmap. exists (full_key, value).
      split; [done|]. apply list_elem_of_omap.
      by exists (SingleField full_key value).
    + right. apply list_elem_of_fmap. exists (group_name holder, key, values).
      split.
      * cbn [fst snd column expected_cell]. f_equal.
        symmetry. apply field_name_of_holder.
        rewrite Forall_forall in Hroot. apply (Hroot _ Hf).
      * rewrite Hentries. apply list_elem_of_omap.
        by exists (ArrayField holder key values).
Qed.

Lemma transposed_rows_of_record_witness :
  let item :=
    [("id", JInt 1);
     ("a", JArr [JInt 1; JInt 2; JInt 3]);
     ("b", JObj [("c", JArr [JStr "p"; JStr "q"; JStr "r"; JStr "s"; JStr "t"]);
                 ("note", JNull)])] in
  ∃ rows : list (dict json),
    transpose_item item = JObj <$> rows ∧
    length rows = 5 ∧
    ∀ i row, rows !! i = Some row →
      row.*1 ≡ₚ column <$> record_fields item ∧
      ∀ f, f ∈ record_fields item →
           dict_get row (column f) = Some (expected_cell f i).
Proof.
  refine (proj2 (transposed_rows_of_record _ _) _).
  - split.
    + apply (bool_decide_unpack _). by vm_compute.
    + by repeat constructor.
  - vm_compute. lia.
Defined.

(** C1, as stated, fails: a record whose only array is empty holds an
    array-valued field, the greatest length is zero, and one row is emitted. *)
Lemma empty_array_record_kept_as_one_row :
  let item := [("a", JArr [])] in
  record_fields item = [ArrayField "" "a" []] ∧
  longest_array (record_fields item) = 0 ∧
  transpose_nested_arrays [JObj item] = Ok [JObj item].
Proof. by split_and!. Qed.

(** Arrays of three and five elements give five rows, the shorter array
    being padded with empty strings. *)
Example transpose_three_and_five :
  transpose_nested_arrays
    [JObj [("a", JArr [JInt 1; JInt 2; JInt 3]);
           ("b", JArr [JInt 1; JInt 2; JInt 3; JInt 4; JInt 5])]]
  = Ok [JObj [("a", JInt 1); ("b", JInt 1)];
        JObj [("a", JInt 2); ("b", JInt 2)];
        JObj [("a", JInt 3); ("b", JInt 3)];
        JObj [("a", JStr ""); ("b", JInt 4)];
        JObj [("a", JStr ""); ("b", JInt 5)]].
Proof. reflexivity. Qed.

(** Outside the condition on columns: an object stored under the key
    ["root"] shares its group with the top level, and its array replaces
    the top-level array of the same name. *)
Example transpose_root_group_shared :
  transpose_nested_arrays
    [JObj [("x", JArr [JInt 1; JInt 2]); ("root", JObj [("x", JArr [JInt 3])])]]
  = Ok [JObj [("x", JInt 3)]].
Proof. reflexivity. Qed.

(** The transposer works record by record. *)
Lemma transpose_loop_objects (items : list (list (string * json)))
    (result : list json) :
  transpose_loop (JObj <$> items) result
  = Ok (result ++ (items ≫= transpose_item)).
Proof.
  revert result. induction items as [|item items IH]; intros result.
  - by rewrite app_nil_r.
  - cbn [fmap list_fmap transpose_loop]. fold (JObj <$> items).
    by rewrite IH, bind_cons, app_assoc.
Qed.

Lemma transposer_per_record (items : list (list (string * json))) :
  transpose_nested_arrays (JObj <$> items) = Ok (items ≫= transpose_item).
Proof.
  destruct items as [|item items]; [done|].
  unfold transpose_nested_arrays. cbn [fmap list_fmap is_dict negb].
  fold (JObj <$> items).
  apply (transpose_loop_objects (item :: items) []).
Qed.

(** *** Records with plain keys have distinct columns *)

Lemma fmap_bind_comm {A B C} (f : B → C) (g : A → list B) (l : list A) :
  f <$> (l ≫= g) = l ≫= λ x, f <$> g x.
Proof.
  induction l as [|x l IH]; [done|]. by rewrite !bind_cons, fmap_app, IH.
Qed.

Lemma dict_child_key_below (parent_key key : string) :
  parent_key ≠ "" →
  dict_child_key parent_key "." key = parent_key +:+ "." +:+ key.
Proof. by destruct parent_key. Qed.

Lemma same_key_same_value {V} (d : dict V) (k : string) (v1 v2 : V) :
  NoDup d.*1 → (k, v1) ∈ d → (k, v2) ∈ d → v1 = v2.
Proof.
  intros Hnd H1 H2. apply (dict_get_elem_of d k v1 Hnd) in H1.
  apply (dict_get_elem_of d k v2 Hnd) in H2. congruence.
Qed.

(** Entries under distinct dot-free keys have distinct columns. *)
Lemma columns_apart (kvs : list (string * json))
    (columns : string * json → list string) (parent : string) :
  NoDup kvs.*1 →
  (∀ k v, (k, v) ∈ kvs → avoids ["."%char] k = true) →
  (∀ kv c, kv ∈ kvs → c ∈ columns kv →
           ∃ s, c = parent +:+ kv.1 +:+ s ∧ at_delim ["."%char] s) →
  (∀ kv, kv ∈ kvs → NoDup (columns kv)) →
  NoDup (kvs ≫= columns).
Proof.
  intros Hnd Hkeys Hshape Heach. apply NoDup_bind; [|done|].
  - intros [k1 v1] [k2 v2] c Hin1 Hin2 Hc1 Hc2.
    destruct (Hshape _ _ Hin1 Hc1) as (s1 & -> & Hs1).
    destruct (Hshape _ _ Hin2 Hc2) as (s2 & Heq & Hs2).
    cbn [fst] in Heq. apply (inj _) in Heq.
    apply (cut_unique ["."%char]) in Heq as [-> _]; eauto.
    f_equal. by eapply same_key_same_value.
  - by apply NoDup_fmap_1 in Hnd.
Qed.

Lemma entry_fields_shape (value : json) (prefix key : string) :
  dict_child_key prefix "." key ≠ "" →
  keys_avoid ["."%char] value = true → unique_keys value = true →
  NoDup (column <$> entry_fields prefix key value) ∧
  (∀ f, f ∈ entry_fields prefix key value →
        ∃ s, column f = dict_child_key prefix "." key +:+ s ∧
             at_delim ["."%char] s) ∧
  (∀ holder k xs, ArrayField holder k xs ∈ entry_fields prefix key value →
        holder = prefix ∨
        ∃ s, holder = dict_child_key prefix "." key +:+ s ∧
             at_delim ["."%char] s).
Proof.
  revert prefix key.
  induction value as [| | | | |xs _|kvs IH] using json_nested_ind;
    intros prefix key Hfull Hplain Hunique;
    try (split_and!; [apply NoDup_singleton
                     |intros f ->%list_elem_of_singleton; exists "";
                      by rewrite str_app_nil_r
                     |by intros holder k xs' [=]%list_elem_of_singleton]).
  - split_and!; [apply NoDup_singleton| |].
    + intros f ->%list_elem_of_singleton. exists "". by rewrite str_app_nil_r.
    + intros holder k xs' [= -> _ _]%list_elem_of_singleton. by left.
  - cbn [entry_fields]. set (full := dict_child_key prefix "." key) in *.
    apply unique_keys_obj in Hunique as [Hnd Hunique].
    rewrite keys_avoid_obj in Hplain. rewrite Forall_forall in IH.
    assert (∀ k v, (k, v) ∈ kvs →
              NoDup (column <$> entry_fields full k v) ∧
              (∀ f, f ∈ entry_fields full k v →
                    ∃ s, column f = (full +:+ ".") +:+ k +:+ s ∧
                         at_delim ["."%char] s) ∧
              (∀ holder k' xs, ArrayField holder k' xs ∈ entry_fields full k v →
                    ∃ s, holder = full +:+ s ∧ at_delim ["."%char] s))
      as Hchild.
    { intros k v Hin.
      destruct (IH (k, v) Hin full k) as (Hnd' & Hshape & Hholder);
        [apply dict_child_key_nonempty; by left
        |by apply (Hplain k v)|by apply (Hunique k v)|].
      rewrite dict_child_key_below in Hshape, Hholder by done.
      split_and!; [done| |].
      - intros f Hf. destruct (Hshape f Hf) as (s & -> & Hs).
        exists s. by rewrite !str_app_assoc.
      - intros holder k' xs Hf.
        destruct (Hholder holder k' xs Hf) as [->|(s & -> & Hs)].
        + exists "". by rewrite str_app_nil_r.
        + exists ("." +:+ k +:+ s). split; [by rewrite !str_app_assoc|left]. }
    split_and!.
    + rewrite fmap_bind_comm.
      apply (columns_apart kvs _ (full +:+ ".")); [done|..].
      * intros k v Hin. by apply (Hplain k v).
      * intros [k v] c Hin Hc.
        apply list_elem_of_fmap in Hc as (f & -> & Hf).
        by apply (Hchild k v Hin).
      * intros [k v] Hin. by apply (Hchild k v Hin).
    + intros f Hf. apply list_elem_of_bind in Hf as ([k v] & Hf & Hin).
      destruct (Hchild k v Hin) as (_ & Hshape & _).
      destruct (Hshape f Hf) as (s & -> & Hs).
      exists ("." +:+ k +:+ s). split; [by rewrite !str_app_assoc|left].
    + intros holder k' xs Hf.
      apply list_elem_of_bind in Hf as ([k v] & Hf & Hin).
      destruct (Hchild k v Hin) as (_ & _ & Hholder).
      right. by apply (Hholder holder k' xs).
Qed.

(** A record whose keys are distinct and free of dots, and whose own keys
    are neither empty nor the word kept for the top level, meets the
    condition under which its rows are described above. *)
Lemma plain_record_distinct_columns (item : list (string * json)) :
  keys_avoid ["."%char] (JObj item) = true →
  unique_keys (JObj item) = true →
  (∀ k v, (k, v) ∈ item → k ≠ "" ∧ k ≠ "root") →
  distinct_columns (record_fields item).
Proof.
  intros Hplain Hunique Htop. unfold record_fields.
  apply unique_keys_obj in Hunique as [Hnd Hunique].
  rewrite keys_avoid_obj in Hplain.
  assert (∀ k v, (k, v) ∈ item →
            NoDup (column <$> entry_fields "" k v) ∧
            (∀ f, f ∈ entry_fields "" k v →
                  ∃ s, column f = "" +:+ k +:+ s ∧ at_delim ["."%char] s) ∧
            (∀ holder k' xs, ArrayField holder k' xs ∈ entry_fields "" k v →
                  holder ≠ "root")) as Hchild.
  { intros k v Hin. destruct (Htop k v Hin) as [Hk Hroot].
    destruct (entry_fields_shape v "" k) as (Hnd' & Hshape & Hholder);
      [done|by apply (Hplain k v)|by apply (Hunique k v)|].
    split_and!; [done|done|].
    intros holder k' xs Hf.
    destruct (Hholder holder k' xs Hf) as [->|(s & -> & Hs)]; [done|].
    intros Heq. cbn [dict_child_key] in Heq. apply Hroot.
    apply (cut_unique ["."%char] k "root" s "");
      [by apply (Hplain k v)|done..]. }
  split.
  - rewrite fmap_bind_comm. apply (columns_apart item _ ""); [done|..].
    + intros k v Hin. by apply (Hplain k v).
    + intros [k v] c Hin Hc.
      apply list_elem_of_fmap in Hc as (f & -> & Hf).
      by apply (Hchild k v Hin).
    + intros [k v] Hin. by apply (Hchild k v Hin).
  - apply Forall_forall. intros f Hf.
    apply list_elem_of_bind in Hf as ([k v] & Hf & Hin).
    destruct f as [|holder k' xs]; [done|].
    by apply (Hchild k v Hin) with k' xs.
Qed.

(** * Further properties of the converter *)

(** ** The flattener *)

Lemma dict_set_entries {V} (d : dict V) (k k' : string) (v v' : V) :
  (k, v) ∈ dict_set d k' v' → (k, v) ∈ d ∨ (k, v) = (k', v').
Proof.
  induction d as [|[k0 v0] d IH]; simpl.
  - intros ->%list_elem_of_singleton. by right.
  - destruct (decide (k0 = k')) as [->|Hne].
    + intros [->|Hin]%elem_of_cons; [by right|]. left. by right.
    + intros [->|Hin]%elem_of_cons; [left; left|].
      destruct (IH Hin) as [?|?]; [left; by right|by right].
Qed.

Lemma dict_update_entries {V} (d : dict V) (items : list (string * V))
    (k : string) (v : V) :
  (k, v) ∈ dict_update d items → (k, v) ∈ d ∨ (k, v) ∈ items.
Proof.
  revert d. induction items as [|[k' v'] items IH]; intros d; [by left|].
  rewrite dict_update_cons. intros Hin.
  destruct (IH _ Hin) as [Hset|?]; [|right; by right].
  destruct (dict_set_entries _ _ _ _ _ Hset) as [?|Heq]; [by left|].
  rewrite Heq. right. left.
Qed.

Lemma dict_update_keys_elem_of {V} (d : dict V) (items : list (string * V))
    (k : string) :
  k ∈ (dict_update d items).*1 ↔ k ∈ d.*1 ∨ k ∈ items.*1.
Proof.
  revert d. induction items as [|[k' v'] items IH]; intros d.
  - split; [by left|]. intros [?|Hin]; [done|]. by apply elem_of_nil in Hin.
  - rewrite dict_update_cons, IH, dict_set_keys, fmap_cons, elem_of_cons.
    cbn [fst]. case_decide as Hk'.
    + split; [tauto|]. intros [?|[->|?]]; tauto.
    + rewrite elem_of_app, list_elem_of_singleton. tauto.
Qed.

Lemma scalar_positions_scalar (v : json) (p : path) (x : json) :
  (p, x) ∈ scalar_positions v → is_scalar x = true.
Proof.
  revert p. induction v as [| | | | |xs IH|kvs IH] using json_nested_ind;
    intros p; try (by intros [= _ ->]%list_elem_of_singleton).
  - cbn [scalar_positions]. intros Hin.
    apply elem_of_enumerate_from in Hin as (i & y & Hi & Hin).
    apply list_elem_of_fmap in Hin as ([q x'] & [= -> ->] & Hin).
    rewrite Forall_forall in IH.
    by apply (IH y (list_elem_of_lookup_2 _ _ _ Hi) q).
  - cbn [scalar_positions]. intros Hin.
    apply list_elem_of_bind in Hin as ([k y] & Hin & Hk).
    apply list_elem_of_fmap in Hin as ([q x'] & [= -> ->] & Hin).
    rewrite Forall_forall in IH. by apply (IH (k, y) Hk q).
Qed.

(** X1.  For any value and any parent key, the flattened mapping is the
    dictionary built from one entry per scalar position, in order, under the
    flat key of its path; its keys are exactly the flat keys of the scalar
    positions, so empty objects and empty lists leave no entry. *)
Theorem flattened_mapping_of_positions (v : json) (parent_key : string) :
  flatten_nested_data v parent_key "."
  = dict_of_items
      ((λ pv, (flat_key_from parent_key pv.1, pv.2)) <$> scalar_positions v)
  ∧ ∀ k, k ∈ dict_keys (flatten_nested_data v parent_key ".")
         ↔ ∃ p, p ∈ paths v ∧ flat_key_from parent_key p = k.
Proof.
  split; [apply flatten_as_dict|].
  intros k. rewrite flatten_as_dict. unfold dict_keys, dict_of_items.
  rewrite dict_update_keys_elem_of, flat_items_keys. split.
  - intros [Hnil|Hin]; [by apply elem_of_nil in Hnil|].
    apply list_elem_of_fmap in Hin as (p & -> & Hp). by exists p.
  - intros (p & Hp & <-). right. apply list_elem_of_fmap. by exists p.
Qed.

(** X2.  Every value of a flattened mapping is a scalar, the one found at a
    scalar position whose flat key is the entry's key: the flattener never
    returns a dict or a list as a value. *)
Theorem flattened_values_are_scalars (v : json) (parent_key k : string)
    (x : json) :
  dict_get (flatten_nested_data v parent_key ".") k = Some x →
  is_scalar x = true ∧
  ∃ p, (p, x) ∈ scalar_positions v ∧ flat_key_from parent_key p = k.
Proof.
  intros Hget. apply dict_get_Some_elem_of in Hget.
  rewrite flatten_as_dict in Hget.
  apply dict_update_entries in Hget as [Hnil|Hin];
    [by apply elem_of_nil in Hnil|].
  apply list_elem_of_fmap in Hin as ([p x'] & [= -> ->] & Hin).
  split; [by eapply scalar_positions_scalar|by exists p].
Qed.

Lemma flattened_values_are_scalars_witness :
  is_scalar JNull = true ∧
  ∃ p, (p, JNull)
         ∈ scalar_positions
             (JObj [("xs", JArr [JInt 1; JObj [("k", JNull)]]); ("e", JObj [])])
       ∧ flat_key_from "" p = "xs[1].k".
Proof.
  apply (flattened_values_are_scalars
           (JObj [("xs", JArr [JInt 1; JObj [("k", JNull)]]); ("e", JObj [])])
           "" "xs[1].k" JNull).
  reflexivity.
Defined.

(** X3.  A record whose values are all scalars, under distinct keys, is its
    own flattened mapping. *)
Theorem flatten_scalar_record_unchanged (item : list (string * json)) :
  NoDup item.*1 →
  Forall (λ kv, is_scalar kv.2 = true) item →
  flatten_nested_data (JObj item) "" "." = item.
Proof.
  intros Hnd Hscalar. rewrite flatten_as_dict, flat_items_obj.
  assert (item ≫= (λ kv, flat_items kv.2 (dict_child_key "" "." kv.1)) = item)
    as ->; [|by apply dict_of_items_fresh].
  clear Hnd. induction Hscalar as [|[k x] item Hx _ IH]; [done|].
  rewrite bind_cons, IH. by destruct x.
Qed.

Lemma flatten_scalar_record_unchanged_witness :
  flatten_nested_data
    (JObj [("id", JInt 1); ("name", JStr "A"); ("note", JNull)]) "" "."
  = [("id", JInt 1); ("name", JStr "A"); ("note", JNull)].
Proof.
  apply flatten_scalar_record_unchanged.
  - apply (bool_decide_unpack _). by vm_compute.
  - by repeat constructor.
Defined.

(** ** The two header rows *)

Lemma header_pair_spec (header : string) :
  str_in "." (header_pair header).1 = false ∧
  if str_in "." header
  then header = (header_pair header).1 +:+ "." +:+ (header_pair header).2
  else header_pair header = (header, "").
Proof.
  unfold header_pair. destruct (str_in "." header) eqn:Hin; [|done].
  destruct (str_split1_dot header Hin) as (before & after & -> & Heq & Hbefore & _).
  done.
Qed.

(** X4.  The two header rows have one cell per header.  The top cell never
    holds a dot; a header without a dot is its own top cell over an empty sub
    cell, and a header with a dot is its top cell, a dot and its sub cell, so
    the cut is at the first dot and nothing is lost. *)
Theorem hierarchical_headers_cut_at_first_dot (headers : list string) :
  length (create_hierarchical_headers headers).1 = length headers ∧
  length (create_hierarchical_headers headers).2 = length headers ∧
  ∀ i header, headers !! i = Some header →
    ∃ top_header sub_header,
      (create_hierarchical_headers headers).1 !! i = Some top_header ∧
      (create_hierarchical_headers headers).2 !! i = Some sub_header ∧
      str_in "." top_header = false ∧
      if str_in "." header
      then header = top_header +:+ "." +:+ sub_header
      else top_header = header ∧ sub_header = "".
Proof.
  rewrite create_hierarchical_headers_map. cbn [fst snd].
  rewrite !length_fmap. split_and!; [done..|].
  intros i header Hheader.
  exists (header_pair header).1, (header_pair header).2.
  rewrite !list_lookup_fmap, Hheader.
  destruct (header_pair_spec header) as [Htop Hcut].
  split_and!; [done..|].
  destruct (str_in "." header); [done|]. by rewrite Hcut.
Qed.

(** ** The detector and the transposer *)

Lemma entry_fields_array (value : json) (prefix key : string) :
  (∃ holder k xs, ArrayField holder k xs ∈ entry_fields prefix key value)
  ↔ nested_arrays_at value = true.
Proof.
  rewrite nested_arrays_at_spec. revert prefix key.
  induction value as [| | | | |xs _|kvs IH] using json_nested_ind;
    intros prefix key;
    try (split; [|done]; by intros (? & ? & ? & [=]%list_elem_of_singleton)).
  - split; [done|]. intros _. exists prefix, key, xs. left.
  - cbn [entry_fields]. rewrite Forall_forall in IH. split.
    + intros (holder & k & xs & Hin).
      apply list_elem_of_bind in Hin as ([k' v] & Hin & Hkv).
      assert (match v with
              | JArr _ => True
              | JObj inner => has_array_field inner
              | _ => False
              end) as Hv by (eapply (IH (k', v) Hkv); eauto).
      destruct v; try done.
      * by eapply array_here.
      * by eapply array_below.
    + inversion 1 as [k xs obj Hin|k inner obj Hin Hinner]; subst.
      * exists (dict_child_key prefix "." key), k, xs.
        apply list_elem_of_bind. exists (k, JArr xs). split; [left|done].
      * destruct (proj2 (IH (k, JObj inner) Hin
                           (dict_child_key prefix "." key) k) Hinner)
          as (holder & k' & xs & Hfield).
        exists holder, k', xs. apply list_elem_of_bind.
        by exists (k, JObj inner).
Qed.

Lemma record_fields_array (item : list (string * json)) :
  (∃ holder k xs, ArrayField holder k xs ∈ record_fields item)
  ↔ has_array_field item.
Proof.
  rewrite <-has_nested_arrays_spec. unfold has_nested_arrays, record_fields.
  rewrite existsb_elem_of. split.
  - intros (holder & k & xs & Hin).
    apply list_elem_of_bind in Hin as ([k' v] & Hin & Hkv).
    exists (k', v). split; [done|]. apply (entry_fields_array v "" k'). eauto.
  - intros ([k' v] & Hkv & Hv).
    apply (entry_fields_array v "" k') in Hv as (holder & k & xs & Hin).
    exists holder, k, xs. apply list_elem_of_bind. by exists (k', v).
Qed.

(** X5.  The detector and the transposer agree on what an array field is:
    the detector answers true exactly for a dataset of one object in which
    the transposer finds at least one array to spread over rows. *)
Theorem detector_agrees_with_transposer (data : list json) :
  detect_transpose_structure data = true ↔
  ∃ item, data = [JObj item] ∧
          ∃ holder key values, ArrayField holder key values ∈ record_fields item.
Proof.
  unfold detect_transpose_structure.
  destruct data as [|first [|second rest]]; simpl.
  - split; [done|]. by intros (? & ? & _).
  - destruct first; try (split; [done|]; by intros (? & ? & _)).
    rewrite has_nested_arrays_spec, <-record_fields_array. split; [by eauto|].
    by intros (? & [= ->] & ?).
  - split; [done|]. by intros (? & ? & _).
Qed.

Lemma transpose_loop_spec (data result : list json) :
  transpose_loop data result
  = if forallb is_dict data
    then Ok (result ++ (objects data ≫= transpose_item))
    else Raise AttributeError.
Proof.
  revert result. induction data as [|item data IH]; intros result.
  - by rewrite app_nil_r.
  - destruct item; try done. cbn [transpose_loop forallb is_dict andb].
    rewrite IH. destruct (forallb is_dict data); [|done].
    cbn [objects omap list_omap]. fold (objects data).
    by rewrite bind_cons, app_assoc.
Qed.

(** X6.  When the first element is an object, the transposer returns the
    rows of all the records, in order, if every element is an object, and
    raises [AttributeError] as soon as one element is not. *)
Theorem transpose_needs_objects_throughout (first : json) (rest : list json) :
  is_dict first = true →
  transpose_nested_arrays (first :: rest)
  = if forallb is_dict rest
    then Ok (objects (first :: rest) ≫= transpose_item)
    else Raise AttributeError.
Proof.
  intros Hfirst. unfold transpose_nested_arrays. rewrite Hfirst.
  cbn [negb]. rewrite transpose_loop_spec. cbn [forallb]. by rewrite Hfirst.
Qed.

Lemma transpose_needs_objects_throughout_witness :
  transpose_nested_arrays
    [JObj [("xs", JArr [JInt 1; JInt 2])]; JInt 7; JObj [("a", JNull)]]
  = Raise AttributeError.
Proof.
  apply (transpose_needs_objects_throughout
           (JObj [("xs", JArr [JInt 1; JInt 2])])
           [JInt 7; JObj [("a", JNull)]]).
  reflexivity.
Defined.

Lemma group_entries_elem_of (ag : dict (dict (list json)))
    (g k : string) (xs : list json) :
  (g, k, xs) ∈ group_entries ag ↔ ∃ arrs, (g, arrs) ∈ ag ∧ (k, xs) ∈ arrs.
Proof.
  unfold group_entries. rewrite list_elem_of_bind. split.
  - intros ([g' arrs] & Hin & Hg).
    apply list_elem_of_fmap in Hin as ([k' xs'] & [= -> -> ->] & Hin).
    by exists arrs.
  - intros (arrs & Hg & Hk). exists (g, arrs). split; [|done].
    apply list_elem_of_fmap. by exists (k, xs).
Qed.

(** Filing an array adds at most that array to the entries. *)
Lemma add_array_entries_from (ag : dict (dict (list json)))
    (slot e : string * string * list json) :
  e ∈ group_entries (add_array ag slot) → e ∈ group_entries ag ∨ e = slot.
Proof.
  destruct slot as [[g k] xs], e as [[g' k'] xs']. cbn [add_array].
  rewrite !group_entries_elem_of. intros (arrs & Hg & Hk).
  apply dict_set_entries in Hg as [Hg|[= -> ->]]; [left; by exists arrs|].
  apply dict_set_entries in Hk as [Hk|[= -> ->]]; [|by right].
  left. destruct (dict_get ag g) as [arrs|] eqn:Hget.
  - exists arrs. split; [by apply dict_get_Some_elem_of|done].
  - by apply elem_of_nil in Hk.
Qed.

Lemma add_arrays_entries_from (slots : list (string * string * list json))
    (ag : dict (dict (list json))) (e : string * string * list json) :
  e ∈ group_entries (fold_left add_array slots ag) →
  e ∈ group_entries ag ∨ e ∈ slots.
Proof.
  revert ag. induction slots as [|slot slots IH]; intros ag; [by left|].
  cbn [fold_left]. intros Hin.
  destruct (IH _ Hin) as [Hstep|?]; [|right; by right].
  destruct (add_array_entries_from _ _ _ Hstep) as [?|Heq]; [by left|].
  rewrite Heq. right. left.
Qed.

Lemma max_list_fmap_le {A} (f : A → nat) (l : list A) (n : nat) :
  (∀ x, x ∈ l → f x ≤ n) → max_list (f <$> l) ≤ n.
Proof.
  induction l as [|x l IH]; intros Hle; simpl; [lia|].
  apply Nat.max_lub; [apply Hle; left|]. apply IH. intros y Hy.
  apply Hle. by right.
Qed.

(** The transposer never counts more rows than the longest array has. *)
Lemma max_length_of_le_longest (item : list (string * json)) :
  max_length_of (extract_arrays item "" ([], [])).2
  ≤ longest_array (record_fields item).
Proof.
  rewrite extract_arrays_fields, apply_fields_split, max_length_of_entries.
  cbn [snd]. apply max_list_fmap_le. intros e He.
  apply add_arrays_entries_from in He as [Hnil|He];
    [by apply elem_of_nil in Hnil|].
  unfold longest_array. rewrite array_lengths_arrays.
  apply max_list_elem_of_le. apply list_elem_of_fmap. by exists e.
Qed.

Lemma transpose_item_length (item : list (string * json)) :
  length (transpose_item item)
  = 1 `max` max_length_of (extract_arrays item "" ([], [])).2.
Proof.
  rewrite (transpose_item_rows item _ eq_refl). case_decide as Hmax.
  - by rewrite Hmax.
  - rewrite !length_fmap, length_seq. lia.
Qed.

Lemma transpose_item_objects (item : list (string * json)) :
  Forall (λ row, is_dict row = true) (transpose_item item).
Proof.
  rewrite (transpose_item_rows item _ eq_refl). case_decide.
  - by repeat constructor.
  - apply Forall_fmap. by apply Forall_true.
Qed.

(** X7.  On a dataset of objects the transposer always succeeds; every row
    it returns is an object; no record is dropped, each one giving at least
    one row and at most as many rows as its longest array has elements. *)
Theorem transposer_keeps_every_record (items : list (list (string * json))) :
  ∃ rows,
    transpose_nested_arrays (JObj <$> items) = Ok rows ∧
    Forall (λ row, is_dict row = true) rows ∧
    length items ≤ length rows ∧
    length rows
    ≤ sum_list ((λ item, 1 `max` longest_array (record_fields item)) <$> items).
Proof.
  exists (items ≫= transpose_item). split.
  { destruct items as [|item items]; [done|].
    unfold transpose_nested_arrays. cbn [fmap list_fmap is_dict negb].
    apply (transpose_loop_objects (item :: items) []). }
  induction items as [|item items (IHobj & IHlow & IHhigh)].
  - by split_and!.
  - rewrite bind_cons, length_app, transpose_item_length, fmap_cons.
    pose proof (max_length_of_le_longest item).
    change (sum_list (?n :: ?ns)) with (n + sum_list ns).
    cbn [length]. split_and!; [|lia..].
    apply Forall_app. split; [apply transpose_item_objects|done].
Qed.

(** X8.  A record without array-valued fields, or whose arrays are all
    empty, is returned as it is, in one row, whatever its keys are. *)
Theorem record_without_elements_unchanged (item : list (string * json)) :
  longest_array (record_fields item) = 0 →
  transpose_item item = [JObj item].
Proof.
  intros Hlongest. pose proof (max_length_of_le_longest item) as Hle.
  rewrite (transpose_item_rows item _ eq_refl). rewrite decide_True; [done|lia].
Qed.

Lemma record_without_elements_unchanged_witness :
  transpose_item
    [("a.b", JInt 1); ("a", JObj [("b", JStr "x"); ("c", JArr [])])]
  = [JObj [("a.b", JInt 1); ("a", JObj [("b", JStr "x"); ("c", JArr [])])]].
Proof.
  apply record_without_elements_unchanged. reflexivity.
Defined.

(** The keys of a dictionary after assignments depend on keys only. *)
Lemma dict_update_keys_only {V W} (d1 : dict V) (d2 : dict W)
    (items1 : list (string * V)) (items2 : list (string * W)) :
  d1.*1 = d2.*1 → items1.*1 = items2.*1 →
  (dict_update d1 items1).*1 = (dict_update d2 items2).*1.
Proof.
  revert d1 d2 items2.
  induction items1 as [|[k v] items1 IH]; intros d1 d2 [|[k' w] items2] Hd Hitems;
    try done.
  injection Hitems as -> Hitems. rewrite !dict_update_cons.
  apply IH; [|done]. by rewrite !dict_set_keys, Hd.
Qed.

Lemma transposed_row_keys (acc : extracted) (i : nat) :
  (transposed_row acc i).*1 = (transposed_row acc 0).*1.
Proof.
  rewrite !transposed_row_cells. apply dict_update_keys_only; [done|].
  unfold single_cells, array_cells. by rewrite !fmap_app, <-!list_fmap_compose.
Qed.

Lemma extract_all_keys_same_columns (d : dict json) (ds : list (dict json)) :
  Forall (λ d', d'.*1 = d.*1) ds →
  extract_all_keys (JObj <$> (d :: ds)) = d.*1.
Proof.
  intros Hsame.
  change (extract_keys false (JObj d :: (JObj <$> ds)) = d.*1).
  rewrite (extract_keys_first_then_remaining false (JObj d) (JObj <$> ds) eq_refl).
  cbn [record_keys]. unfold dict_keys.
  assert (remaining_keys (gather false (JObj d :: (JObj <$> ds)) ∅) d.*1 = [])
    as ->; [|by rewrite app_nil_r].
  apply elem_of_nil_inv. intros k.
  rewrite remaining_keys_elem_of, gather_elem_of.
  intros [[Hempty|(item & Hin & Hk)] Hnot]; [by set_solver|].
  apply Hnot. apply elem_of_cons in Hin as [->|Hin]; [done|].
  apply list_elem_of_fmap in Hin as (d' & -> & Hd').
  rewrite Forall_forall in Hsame. cbn [record_keys] in Hk. unfold dict_keys in Hk.
  by rewrite <-(Hsame d' Hd').
Qed.

(** X9.  All the rows the transposer makes from one record have the same
    columns in the same order, and these columns are the header that key
    extraction gives for them: no row of a transposed record lacks a cell. *)
Theorem transposed_rows_share_columns (item : list (string * json)) :
  ∃ columns : list string,
    extract_all_keys (transpose_item item) = columns ∧
    Forall (λ row, ∃ d, row = JObj d ∧ dict_keys d = columns)
      (transpose_item item).
Proof.
  rewrite (transpose_item_rows item _ eq_refl). case_decide as Hmax.
  - exists item.*1. split.
    + apply (extract_all_keys_same_columns item []). constructor.
    + repeat constructor. by exists item.
  - set (acc := extract_arrays item "" ([], [])) in *.
    destruct (max_length_of acc.2) as [|m] eqn:Hm; [done|].
    exists (transposed_row acc 0).*1. cbn [seq fmap list_fmap]. split.
    + apply (extract_all_keys_same_columns (transposed_row acc 0)
               (transposed_row acc <$> seq 1 m)).
      apply Forall_fmap, Forall_true. intros i. apply transposed_row_keys.
    + constructor; [by eexists|].
      apply Forall_fmap, Forall_fmap, Forall_true. intros i. eexists.
      split; [done|]. apply transposed_row_keys.
Qed.

(** ** Key extraction *)

Lemma extract_keys_shape (flatten_mode : bool) (first : json) (rest : list json) :
  extract_keys flatten_mode (first :: rest)
  = record_keys flatten_mode first
      ++ remaining_keys (gather flatten_mode (first :: rest) ∅)
           (record_keys flatten_mode first).
Proof.
  destruct (is_dict first) eqn:Hfirst;
    [by apply extract_keys_first_then_remaining|].
  assert (record_keys flatten_mode first = []) as Hkeys by by destruct first.
  assert (gather flatten_mode (first :: rest) ∅ = gather flatten_mode rest ∅)
    as ->.
  { unfold gather. cbn [fold_left].
    by rewrite Hkeys, list_to_set_nil, (right_id_L ∅ (∪)). }
  rewrite Hkeys. destruct flatten_mode; cbn [extract_keys].
  - unfold extract_all_keys_advanced.
    rewrite bool_decide_eq_false_2 by done.
    cbn [imap fold_left]. rewrite Hfirst.
    rewrite flatten_keys_gathered.
    + rewrite fmap_imap.
      replace (imap (λ n, snd ∘ ((λ i item, (i, item)) ∘ S) n) rest)
        with (imap (λ _, id) rest) by done.
      by rewrite (imap_const id), list_fmap_id.
    + apply Forall_forall. intros [i item] Hin.
      apply elem_of_lookup_imap in Hin as (j & y & [= -> ->] & _). done.
  - unfold extract_all_keys. rewrite bool_decide_eq_false_2 by done.
    rewrite plain_keys_gathered.
    assert (gather false (first :: rest) ∅ = gather false rest ∅) as ->.
    { unfold gather. cbn [fold_left].
      replace (record_keys false first) with (@nil string) by by destruct first.
      by rewrite list_to_set_nil, (right_id_L ∅ (∪)). }
    by destruct first.
Qed.

Lemma extract_keys_elem_of (flatten_mode : bool) (data : list json) (k : string) :
  k ∈ extract_keys flatten_mode data
  ↔ ∃ item, item ∈ data ∧ k ∈ record_keys flatten_mode item.
Proof.
  destruct data as [|first rest].
  - split; [by destruct flatten_mode; intros ?%elem_of_nil|].
    by intros (item & ?%elem_of_nil & _).
  - rewrite extract_keys_shape, elem_of_app, remaining_keys_elem_of,
      gather_elem_of. split.
    + intros [Hk|[[Hempty|Hex] _]]; [|by set_solver|done].
      exists first. split; [left|done].
    + intros (item & Hin & Hk).
      destruct (decide (k ∈ record_keys flatten_mode first)); [by left|].
      right. split; [|done]. right. by exists item.
Qed.

(** X10.  The header holds the keys of the records and nothing else: a key is
    a column exactly when some object of the dataset has it (as a key in
    plain mode, as a flat key in flatten mode), wherever that object stands
    and whatever the first element is.  So the header is empty exactly when
    no object of the dataset has a key. *)
Theorem header_is_union_of_record_keys (flatten_mode : bool) (data : list json) :
  (∀ k, k ∈ extract_keys flatten_mode data
        ↔ ∃ item, item ∈ data ∧ k ∈ record_keys flatten_mode item) ∧
  (extract_keys flatten_mode data = []
   ↔ ∀ item, item ∈ data → record_keys flatten_mode item = []).
Proof.
  split; [apply extract_keys_elem_of|]. split.
  - intros Hempty item Hin. apply elem_of_nil_inv. intros k Hk.
    eapply not_elem_of_nil. rewrite <-Hempty. apply extract_keys_elem_of.
    by exists item.
  - intros Hnone. apply elem_of_nil_inv. intros k Hk.
    apply extract_keys_elem_of in Hk as (item & Hin & Hk).
    rewrite (Hnone item Hin) in Hk. by apply elem_of_nil in Hk.
Qed.

Lemma record_keys_NoDup (flatten_mode : bool) (item : json) :
  unique_keys item = true → NoDup (record_keys flatten_mode item).
Proof.
  intros Hunique. destruct item; try apply NoDup_nil_2.
  destruct flatten_mode; cbn [record_keys]; unfold dict_keys.
  - rewrite flatten_as_dict. apply dict_of_items_NoDup.
  - by apply unique_keys_obj in Hunique as [? _].
Qed.

(** X11.  No column is listed twice: for a dataset whose objects have
    distinct keys, as every parsed document has, the header has no
    duplicate, in plain and in flatten mode. *)
Theorem header_has_no_duplicate (flatten_mode : bool) (data : list json) :
  Forall (λ item, unique_keys item = true) data →
  NoDup (extract_keys flatten_mode data).
Proof.
  intros Hunique. destruct data as [|first rest].
  - destruct flatten_mode; apply NoDup_nil_2.
  - rewrite extract_keys_shape. apply NoDup_app. split_and!.
    + apply record_keys_NoDup. by apply Forall_cons in Hunique as [? _].
    + intros k Hk Hrem. by apply remaining_keys_elem_of in Hrem as [_ ?].
    + apply remaining_keys_NoDup.
Qed.

Lemma header_has_no_duplicate_witness :
  NoDup
    (extract_keys true
       [JInt 3; JObj [("b", JObj [("x", JInt 1)]); ("a", JNull)];
        JObj [("a", JInt 2); ("b", JArr [JStr "y"])]]).
Proof.
  apply header_has_no_duplicate. by repeat constructor.
Defined.

(** ** Runs *)

Lemma for_each_Forall {A} (P : event → Prop) (xs : list A)
    (body : A → io unit) :
  (∀ x, Forall P (body x).1) → Forall P (for_each xs body).1.
Proof.
  intros Hbody. induction xs as [|x xs IH]; [by constructor|].
  cbn [for_each]. unfold mbind, io_bind. specialize (Hbody x).
  destruct (body x) as [log [[]|e]]; [|done].
  destruct (for_each xs body) as [log' r]. apply Forall_app. done.
Qed.

Lemma file_rows_table (out : string) (n : nat) (body : list event)
    (rows : list (list string)) :
  Forall (table_event out n) body →
  file_rows out body (Some rows) = Some (rows ++ written_rows body).
Proof.
  intros Hbody. revert rows.
  induction Hbody as [|e body He _ IH]; intros rows.
  - by rewrite app_nil_r.
  - destruct e; try done; cbn [file_rows]; [apply IH..|].
    destruct He as [-> _]. rewrite decide_True by done. cbn [fmap option_fmap option_map].
    rewrite IH. unfold written_rows. cbn [omap list_omap]. by rewrite <-app_assoc.
Qed.

Lemma file_rows_untouched (out : string) (pre : list event)
    (content : option (list (list string))) :
  Forall (λ e, is_output_event e = false) pre →
  file_rows out pre content = content ∧ written_rows pre = [].
Proof.
  induction 1 as [|e pre He _ IH]; [done|]. by destruct e.
Qed.

Section runs.
Variable str_container : json → string.
Variable json_dumps : json → string.
Variable with_suffix : string → string → outcome string.

Abbreviation json_to_csv :=
  (json_to_csv str_container json_dumps with_suffix).
Abbreviation main := (main str_container json_dumps with_suffix).
Abbreviation write_rows := (write_rows str_container json_dumps).
Abbreviation write_hierarchical_csv := (write_hierarchical_csv str_container).
Abbreviation output_path := (output_path with_suffix).

Lemma write_rows_table (out : string) (headers : list string)
    (flatten_arrays : bool) (data : list json) :
  Forall (table_event out (length headers))
    (write_rows out headers flatten_arrays data).1.
Proof.
  apply for_each_Forall. intros [| | | | | |item]; try by repeat constructor.
  repeat constructor. apply length_fmap.
Qed.

Lemma write_hierarchical_csv_table (out : string) (headers : list string)
    (data : list json) :
  ∃ body,
    (write_hierarchical_csv out headers data).1 = OpenWrite out :: body ∧
    Forall (table_event out (length headers)) body.
Proof.
  unfold write_hierarchical_csv. rewrite create_hierarchical_headers_map.
  rewrite !io_bind_emit. cbn [fst snd]. eexists. split; [reflexivity|].
  constructor; [split; [done|apply length_fmap]|].
  constructor; [split; [done|apply length_fmap]|].
  apply for_each_Forall. intros [| | | | | |item]; try by repeat constructor.
  repeat constructor. apply length_fmap.
Qed.

(** The shape of the log of any run: nothing is written, or the output
    path is opened once and what follows are rows of one width for it. *)
Lemma json_to_csv_log (file : file_state) (json_file_path : string)
    (csv_file_path : option string) (flatten_arrays transpose : bool) :
  let run :=
    json_to_csv file json_file_path csv_file_path flatten_arrays transpose in
  Forall (λ e, is_output_event e = false) run.1 ∨
  ∃ out pre body n,
    output_path json_file_path csv_file_path flatten_arrays transpose = Ok out ∧
    run.1 = pre ++ OpenWrite out :: body ∧
    Forall (λ e, is_output_event e = false) pre ∧
    Forall (table_event out n) body.
Proof.
  intros run. unfold run, json_to_csv.
  pose proof write_hierarchical_csv_table as Hwh.
  pose proof write_rows_table as Hwr.
  revert Hwh Hwr. generalize write_hierarchical_csv, write_rows.
  intros whc wr Hwh Hwr.
  destruct file as [| | |data]; [left; by repeat constructor|..].
  all: destruct (output_path _ _ _ _) as [out|e] eqn:Hout;
    [|left; by repeat constructor].
  1,2: left; by repeat constructor.
  destruct data as [| | | | |data|]; try (left; by repeat constructor).
  simpl. case_bool_decide as Hdata.
  { right. exists out, [PathExists json_file_path; OpenRead json_file_path;
                    PrintOut MsgEmptyArray], [], 0. by repeat constructor. }
  assert (∀ processed_data headers pre,
            Forall (λ e, is_output_event e = false) pre →
            ∀ tail, Forall (table_event out (length headers)) tail →
            ∃ out0 pre0 body n,
              Ok out = Ok out0 ∧
              pre ++ (whc out headers processed_data).1 ++ tail
              = pre0 ++ OpenWrite out0 :: body ∧
              Forall (λ e, is_output_event e = false) pre0 ∧
              Forall (table_event out0 n) body) as Htransposed.
  { intros processed_data headers pre Hpre tail Htail.
    destruct (Hwh out headers processed_data) as (body & -> & Hbody).
    exists out, pre, (body ++ tail), (length headers).
    split_and!; [done|done|done|by apply Forall_app]. }
  assert (∀ processed_data headers pre,
            Forall (λ e, is_output_event e = false) pre →
            ∀ tail, Forall (table_event out (length headers)) tail →
            ∃ out0 pre0 body n,
              Ok out = Ok out0 ∧
              pre ++ OpenWrite out :: WriteRow out headers
                  :: (wr out headers flatten_arrays processed_data).1 ++ tail
              = pre0 ++ OpenWrite out0 :: body ∧
              Forall (λ e, is_output_event e = false) pre0 ∧
              Forall (table_event out0 n) body) as Hflat.
  { intros processed_data headers pre Hpre tail Htail.
    eexists out, pre, _, (length headers).
    split_and!; [done|done|done|].
    constructor; [done|]. by apply Forall_app. }
  destruct (detect_transpose_structure data && negb flatten_arrays
            && negb transpose) eqn:Hauto; simpl.
  - destruct (transpose_nested_arrays data) as [processed_data|e]; simpl;
      [|left; by repeat constructor].
    case_bool_decide as Hheaders; simpl; [left; by repeat constructor|].
    right.
    pose proof (Htransposed processed_data (extract_all_keys processed_data)
                  [PathExists json_file_path; OpenRead json_file_path;
                   PrintOut MsgAutoDetected; PrintOut MsgTransposeMode]
                  ltac:(by repeat constructor)) as Hfin.
    destruct (whc out (extract_all_keys processed_data) processed_data)
      as [log [[]|e]]; simpl in *.
    + apply Hfin. by repeat constructor.
    + apply Hfin. constructor.
  - destruct transpose; simpl.
    + destruct (transpose_nested_arrays data) as [processed_data|e]; simpl;
        [|left; by repeat constructor].
      case_bool_decide as Hheaders; simpl; [left; by repeat constructor|].
      right.
      pose proof (Htransposed processed_data (extract_all_keys processed_data)
                    [PathExists json_file_path; OpenRead json_file_path;
                     PrintOut MsgTransposeMode]
                    ltac:(by repeat constructor)) as Hfin.
      destruct (whc out (extract_all_keys processed_data) processed_data)
        as [log [[]|e]]; simpl in *.
      * apply Hfin. by repeat constructor.
      * apply Hfin. constructor.
    + destruct flatten_arrays; simpl;
        (case_bool_decide as Hheaders; simpl; [left; by repeat constructor|]);
        right.
      * pose proof (Hflat data (extract_all_keys_advanced data)
                      [PathExists json_file_path; OpenRead json_file_path;
                       PrintOut MsgFlattenMode]
                      ltac:(by repeat constructor)) as Hfin.
        destruct (wr out (extract_all_keys_advanced data) true data)
          as [log [[]|e]]; simpl in *.
        -- apply Hfin. by repeat constructor.
        -- apply Hfin. constructor.
      * pose proof (Hflat data (extract_all_keys data)
                      [PathExists json_file_path; OpenRead json_file_path]
                      ltac:(by repeat constructor)) as Hfin.
        destruct (wr out (extract_all_keys data) false data)
          as [log [[]|e]]; simpl in *.
        -- apply Hfin. by repeat constructor.
        -- apply Hfin. constructor.
Qed.

Lemma file_rows_never_opened (path : string) (log : list event) :
  OpenWrite path ∉ log → file_rows path log None = None.
Proof.
  induction log as [|e log IH]; [done|]. intros Hnot.
  apply not_elem_of_cons in Hnot as [Hne Hnot].
  destruct e; cbn [file_rows]; try by apply IH.
  - rewrite decide_False by congruence. by apply IH.
  - destruct (decide _); by apply IH.
Qed.

(** X12.  Whatever the flags and the input, a run leaves one table at most,
    at the output path: either it writes nothing at all, or it creates the
    file at the output path once, every row it writes goes to that file
    after it was created, all the rows have the same number of cells, and
    no other file is created.  This holds for the runs that fail half-way
    too. *)
Theorem run_writes_one_table (file : file_state) (json_file_path : string)
    (csv_file_path : option string) (flatten_arrays transpose : bool) :
  let run :=
    json_to_csv file json_file_path csv_file_path flatten_arrays transpose in
  Forall (λ e, is_output_event e = false) run.1 ∨
  ∃ out n,
    output_path json_file_path csv_file_path flatten_arrays transpose = Ok out ∧
    file_rows out run.1 None = Some (written_rows run.1) ∧
    Forall (λ row, length row = n) (written_rows run.1) ∧
    ∀ path, path ≠ out → file_rows path run.1 None = None.
Proof.
  intros run.
  destruct (json_to_csv_log file json_file_path csv_file_path flatten_arrays
              transpose) as [Hnone|(out & pre & body & n & Hout & Hlog & Hpre & Hbody)];
    [by left|right].
  exists out, n. fold run in Hlog. rewrite Hlog.
  destruct (file_rows_untouched out pre None Hpre) as [Hrows Hwritten].
  split_and!; [done| | |].
  - assert (∀ content,
              file_rows out (pre ++ OpenWrite out :: body) content
              = file_rows out (OpenWrite out :: body) (file_rows out pre content))
      as ->.
    { clear. induction pre as [|e pre IH]; [done|].
      intros content. destruct e; cbn [app file_rows]; apply IH. }
    rewrite Hrows. cbn [file_rows]. rewrite decide_True by done.
    rewrite (file_rows_table out n) by done.
    rewrite written_rows_app, Hwritten. done.
  - rewrite written_rows_app, Hwritten. cbn [app].
    change (written_rows (OpenWrite out :: body)) with (written_rows body).
    clear -Hbody. induction Hbody as [|e body He _ IH]; [constructor|].
    destruct e; try done. destruct He as [_ He]. by constructor.
  - intros path Hpath. apply file_rows_never_opened.
    rewrite elem_of_app, elem_of_cons. intros [Hin|[[= ->]|Hin]]; [|done|].
    + rewrite Forall_forall in Hpre. by specialize (Hpre _ Hin).
    + rewrite Forall_forall in Hbody. by specialize (Hbody _ Hin).
Qed.

(** X13.  An input that is not a JSON array is fatal and leaves no output:
    when the input file is missing, cannot be read, is not valid JSON, or
    holds anything but an array, the process prints an error on standard
    error as its last action, exits with code 1, and has neither created
    nor written a file. *)
Theorem input_not_an_array_is_fatal (args : arguments) (file : file_state) :
  (∀ data, file ≠ Parsed (JArr data)) →
  (main args file).2 = 1 ∧
  Forall (λ e, is_output_event e = false) (main args file).1 ∧
  ∃ log m, (main args file).1 = log ++ [PrintErr m].
Proof.
  intros Hfile. unfold main.
  destruct (flatten args && transpose args).
  { split_and!; [done|by repeat constructor|]. by exists [], MsgExclusive. }
  unfold json_to_csv.
  destruct file as [| | |data]; simpl.
  1: by split_and!; [|repeat constructor|eexists [_], _].
  all: destruct (output_path _ _ _ _) as [out|e]; simpl.
  all: try by split_and!; [|repeat constructor|eexists [_], _].
  all: try by split_and!; [|repeat constructor|eexists [_; _], _].
  destruct data as [| | | | |data|]; simpl.
  all: try by split_and!; [|repeat constructor|eexists [_; _], _].
  by destruct (Hfile data).
Qed.

(** ** Transposed runs *)

Lemma objects_fmap (rows : list (list (string * json))) :
  objects (JObj <$> rows) = rows.
Proof. induction rows as [|row rows IH]; [done|]. simpl. f_equal. exact IH. Qed.

Lemma objects_all (data : list json) :
  Forall (λ item, is_dict item = true) data → data = JObj <$> objects data.
Proof.
  induction 1 as [|item data Hitem _ IH]; [done|].
  destruct item; try done. simpl. f_equal. exact IH.
Qed.

(** The loop of [write_hierarchical_csv] writes a row per object and stops
    at the first element that is not one. *)
Lemma write_hierarchical_csv_loop (out : string) (headers : list string)
    (rows : list (list (string * json))) (rest : list json) :
  match rest with [] => True | bad :: _ => is_dict bad = false end →
  write_hierarchical_csv out headers ((JObj <$> rows) ++ rest)
  = (OpenWrite out
       :: WriteRow out (create_hierarchical_headers headers).1
       :: WriteRow out (create_hierarchical_headers headers).2
       :: (WriteRow out ∘ hierarchical_cells str_container headers <$> rows),
     if rest is [] then Ok tt else Raise AttributeError).
Proof.
  intros Hrest. unfold write_hierarchical_csv.
  destruct (create_hierarchical_headers headers) as [top_headers sub_headers].
  rewrite !io_bind_emit. cbn [fst snd].
  set (body := λ item : json, match item with JObj _ => _ | _ => _ end).
  assert (for_each ((JObj <$> rows) ++ rest) body
          = (WriteRow out ∘ hierarchical_cells str_container headers <$> rows,
             if rest is [] then Ok tt else Raise AttributeError)) as ->; [|done].
  induction rows as [|row rows IH].
  - destruct rest as [|bad rest]; [done|]. cbn [fmap list_fmap app for_each].
    by destruct bad.
  - change (for_each ((JObj <$> row :: rows) ++ rest) body)
      with (body (JObj row) ;; for_each ((JObj <$> rows) ++ rest) body).
    rewrite IH. unfold body at 1. by rewrite io_bind_emit.
Qed.

(** What a run does once it transposes, by the flag or by detection, and
    has found a column. *)
Lemma json_to_csv_transposed_run (json_file_path out : string)
    (csv_file_path : option string) (flatten_arrays transpose : bool)
    (data processed_data : list json) :
  data ≠ [] →
  output_path json_file_path csv_file_path flatten_arrays transpose = Ok out →
  transpose || detect_transpose_structure data && negb flatten_arrays = true →
  transpose_nested_arrays data = Ok processed_data →
  let headers := extract_all_keys processed_data in
  headers ≠ [] →
  let writing := write_hierarchical_csv out headers processed_data in
  json_to_csv (Parsed (JArr data)) json_file_path csv_file_path
    flatten_arrays transpose
  = ([PathExists json_file_path; OpenRead json_file_path]
       ++ (if transpose then [] else [PrintOut MsgAutoDetected])
       ++ [PrintOut MsgTransposeMode]
       ++ writing.1
       ++ (if writing.2 is Ok _
           then [PrintOut (MsgDone out (length processed_data)
                             (length headers) ModeTranspose)]
           else []),
     if writing.2 is Ok _ then Ok tt else Raise Exception).
Proof.
  intros Hdata Hout Hmode Hprocessed headers Hheaders writing.
  unfold json_to_csv. rewrite Hout. simpl.
  rewrite bool_decide_eq_false_2 by done.
  destruct transpose; simpl in *.
  - rewrite andb_false_r. simpl. rewrite Hprocessed. simpl.
    rewrite bool_decide_eq_false_2 by done. simpl. fold headers. fold writing.
    by destruct writing as [log [[]|e]].
  - rewrite Hmode. simpl. rewrite Hprocessed. simpl.
    rewrite bool_decide_eq_false_2 by done. simpl. fold headers. fold writing.
    by destruct writing as [log [[]|e]].
Qed.

Lemma file_rows_rows (out : string) (rows : list (list string))
    (body : list event) (acc : list (list string)) :
  file_rows out ((WriteRow out <$> rows) ++ body) (Some acc)
  = file_rows out body (Some (acc ++ rows)).
Proof.
  revert acc. induction rows as [|row rows IH]; intros acc.
  - by rewrite app_nil_r.
  - cbn [fmap list_fmap app file_rows]. rewrite decide_True by done.
    cbn [fmap option_fmap option_map].
    etrans; [apply (IH (acc ++ [row]))|]. by rewrite <-app_assoc.
Qed.

Lemma file_rows_opened (out : string) (pre body : list event)
    (rows : list (list string)) :
  Forall (λ e, is_output_event e = false) pre →
  file_rows out (pre ++ OpenWrite out :: (WriteRow out <$> rows) ++ body) None
  = file_rows out body (Some rows).
Proof.
  intros Hpre. induction Hpre as [|e pre He _ IH].
  - cbn [app file_rows]. rewrite decide_True by done. apply file_rows_rows.
  - destruct e; try done; exact IH.
Qed.

(** X14.  A dataset of objects that is transposed, by [--transpose] or by
    detection, gives a table with two header rows, the headers cut at
    their first dot, followed by one row per row of the transposer, in
    order, whose cells are the [str] of the row's values and the empty
    string for a header the row lacks; the closing message reports that
    number of rows and the run ends normally. *)
Theorem transposed_run_of_records (json_file_path out : string)
    (csv_file_path : option string) (flatten_arrays transpose : bool)
    (items : list (list (string * json))) :
  items ≠ [] →
  output_path json_file_path csv_file_path flatten_arrays transpose = Ok out →
  transpose
  || detect_transpose_structure (JObj <$> items) && negb flatten_arrays = true →
  let rows := objects (items ≫= transpose_item) in
  let headers := extract_all_keys (items ≫= transpose_item) in
  headers ≠ [] →
  let run :=
    json_to_csv (Parsed (JArr (JObj <$> items))) json_file_path csv_file_path
      flatten_arrays transpose in
  run.2 = Ok tt ∧
  file_rows out run.1 None
  = Some ((create_hierarchical_headers headers).1
            :: (create_hierarchical_headers headers).2
            :: (hierarchical_cells str_container headers <$> rows)) ∧
  reported_rows run.1 = [length rows] ∧
  length items ≤ length rows.
Proof.
  intros Hitems Hout Hmode rows headers Hheaders run.
  assert (Forall (λ row, is_dict row = true) (items ≫= transpose_item)) as Hrows.
  { apply Forall_forall. intros row (item & Hrow & _)%list_elem_of_bind.
    revert row Hrow. apply Forall_forall, transpose_item_objects. }
  assert (length (items ≫= transpose_item) = length rows) as Hlength.
  { rewrite (objects_all _ Hrows) at 1. apply length_fmap. }
  assert (JObj <$> items ≠ []) as Hdata by by destruct items.
  unfold run.
  rewrite (json_to_csv_transposed_run _ out _ _ _ _ (items ≫= transpose_item))
    by (done || apply transposer_per_record).
  fold headers. rewrite Hlength.
  rewrite (objects_all _ Hrows). fold rows.
  rewrite <-(app_nil_r (JObj <$> rows)), write_hierarchical_csv_loop by done.
  cbn [fst snd]. split_and!; [done| | |].
  - rewrite list_fmap_compose.
    destruct transpose;
      [ etrans;
        [apply (file_rows_opened out
                  [PathExists json_file_path; OpenRead json_file_path;
                   PrintOut MsgTransposeMode] [_]
                  ((create_hierarchical_headers headers).1
                     :: (create_hierarchical_headers headers).2
                     :: (hierarchical_cells str_container headers <$> rows)));
         by repeat constructor|reflexivity]
      | etrans;
        [apply (file_rows_opened out
                  [PathExists json_file_path; OpenRead json_file_path;
                   PrintOut MsgAutoDetected; PrintOut MsgTransposeMode] [_]
                  ((create_hierarchical_headers headers).1
                     :: (create_hierarchical_headers headers).2
                     :: (hierarchical_cells str_container headers <$> rows)));
         by repeat constructor|reflexivity] ].
  - unfold reported_rows. rewrite !omap_app.
    assert (∀ (f : list (string * json) → list string) rs,
              omap (λ e, if e is PrintOut (MsgDone _ n _ _) then Some n else None)
                (WriteRow out ∘ f <$> rs) = []) as Hnone.
    { intros f rs. induction rs as [|r rs IH]; [done|exact IH]. }
    cbn [omap list_omap app]. rewrite Hnone. by destruct transpose.
  - rewrite <-Hlength. clear. induction items as [|item items IH]; [done|].
    cbn [mbind list_bind]. rewrite length_app, transpose_item_length.
    cbn [length]. lia.
Qed.


(** X16.  [--transpose] on a dataset that starts with an object and holds
    an element that is not an object fails before any output: the run
    raises [AttributeError] (or, when no output path could be derived, the
    error of that step) without creating the output file, and the process
    exits with code 1.  (Plain and flatten mode skip such an element
    instead.) *)
Theorem transposed_run_of_mixed_dataset (args : arguments)
    (first : json) (rest : list json) :
  transpose args = true → flatten args = false →
  is_dict first = true → forallb is_dict rest = false →
  let run :=
    json_to_csv (Parsed (JArr (first :: rest))) (input_file args)
      (output args) false true in
  match output_path (input_file args) (output args) false true with
  | Ok _ => run.2 = Raise AttributeError
  | Raise e => run.2 = Raise e
  end ∧
  Forall (λ e, is_output_event e = false) run.1 ∧
  (main args (Parsed (JArr (first :: rest)))).2 = 1 ∧
  Forall (λ e, is_output_event e = false)
    (main args (Parsed (JArr (first :: rest)))).1.
Proof.
  intros Htranspose Hflatten Hfirst Hrest run.
  assert (transpose_nested_arrays (first :: rest) = Raise AttributeError)
    as Hfails.
  { unfold transpose_nested_arrays. rewrite Hfirst. cbn [negb].
    rewrite transpose_loop_spec. cbn [forallb]. by rewrite Hfirst, Hrest. }
  assert (match output_path (input_file args) (output args) false true with
          | Ok _ => run.2 = Raise AttributeError
          | Raise e => run.2 = Raise e
          end ∧ Forall (λ e, is_output_event e = false) run.1) as [Hrun Hlog].
  { unfold run. clear run. assert (first :: rest ≠ []) as Hdata by done.
    revert Hfails Hdata. generalize (first :: rest). intros data ??.
    unfold json_to_csv.
    destruct (output_path _ _ _ _) as [out|e]; simpl.
    - rewrite bool_decide_eq_false_2 by done. rewrite andb_false_r. simpl.
      rewrite Hfails. simpl. split; [done|]. by repeat constructor.
    - split; [done|]. by repeat constructor. }
  split_and!; [done|done|..]; unfold main; rewrite Htranspose, Hflatten;
    cbn [andb]; fold run; destruct (output_path _ _ _ _);
    rewrite Hrun; cbn [fst snd]; [done|done|..];
    (apply Forall_app; split; [done|by repeat constructor]).
Qed.

(** X17.  Detection acts as [--transpose] given late: when no flag is set
    and the detector accepts the dataset, the run does what a run with
    [--transpose] and the same output path does, with one more message
    after the input was read.  The output path is the one chosen before
    detection: without [-o] it ends in [.csv], not in [_transposed.csv]. *)
Theorem detection_acts_as_transpose (json_file_path out : string)
    (csv_file_path : option string) (data : list json) :
  detect_transpose_structure data = true →
  output_path json_file_path csv_file_path false false = Ok out →
  let detected :=
    json_to_csv (Parsed (JArr data)) json_file_path csv_file_path
      false false in
  let asked :=
    json_to_csv (Parsed (JArr data)) json_file_path (Some out) false true in
  detected.1 = take 2 asked.1 ++ PrintOut MsgAutoDetected :: drop 2 asked.1 ∧
  detected.2 = asked.2 ∧
  (csv_file_path = None →
   with_suffix json_file_path ".csv" = Ok out).
Proof.
  intros Hdetect Hout detected asked.
  split_and!; [| |by intros ->].
  all: unfold detected, asked, json_to_csv; rewrite Hout; simpl.
  all: assert (data ≠ []) as Hdata by (by intros ->).
  all: rewrite bool_decide_eq_false_2 by done.
  all: rewrite Hdetect; simpl.
  all: destruct (transpose_nested_arrays data) as [processed_data|e]; simpl;
    [|done].
  all: case_bool_decide; simpl; [done|].
  all: by destruct (write_hierarchical_csv _ _ _) as [log [[]|e]].
Qed.

(** ** Plain and flatten runs *)

(** X18.  A record that lacks a column gets an empty cell there, in plain
    and in flatten mode alike: in the row handed to the CSV writer, the cell
    under a header that is no key of the record (no flat key of it, in
    flatten mode) is the empty string. *)
Theorem absent_key_gives_empty_cell (flatten_arrays : bool)
    (headers : list string) (item : list (string * json))
    (i : nat) (key : string) :
  headers !! i = Some key →
  dict_get
    (if flatten_arrays then flatten_nested_data (JObj item) "" "." else item)
    key = None →
  dict_writer_row headers
    (if flatten_arrays then flatten_row str_container headers item
     else plain_row str_container json_dumps headers item) !! i
  = Some "".
Proof.
  intros Hkey Habsent. rewrite dict_writer_row_cells. unfold row_cells.
  destruct flatten_arrays; rewrite list_lookup_fmap, Hkey; cbn [fmap option_fmap option_map];
    unfold item_get; by rewrite Habsent.
Qed.

Lemma reported_rows_none (log : list event) :
  Forall (λ e, if e is PrintOut (MsgDone _ _ _ _) then False else True) log →
  reported_rows log = [].
Proof.
  induction 1 as [|e log He _ IH]; [done|].
  destruct e as [[]| | | | |]; done || exact IH.
Qed.

Lemma length_objects_non_objects (data : list json) :
  length data = length (objects data) + length (non_objects data).
Proof.
  induction data as [|item data IH]; [done|].
  unfold non_objects in *. destruct item; simpl; rewrite IH, ?Nat.add_succ_r; done.
Qed.

(** X19.  The closing message of a plain or flatten run counts the elements
    of the input, not the rows written: the number of rows it reports is
    the number of data rows in the file plus the number of elements that
    were skipped. *)
Theorem reported_rows_count_skipped_elements (json_file_path out : string)
    (csv_file_path : option string) (flatten_arrays : bool) (data : list json) :
  data ≠ [] →
  output_path json_file_path csv_file_path flatten_arrays false = Ok out →
  detect_transpose_structure data && negb flatten_arrays = false →
  extract_keys flatten_arrays data ≠ [] →
  let run :=
    json_to_csv (Parsed (JArr data)) json_file_path csv_file_path
      flatten_arrays false in
  ∃ data_rows,
    file_rows out run.1 None
    = Some (extract_keys flatten_arrays data :: data_rows) ∧
    reported_rows run.1 = [length data] ∧
    length data = length data_rows + length (skipped_items run.1).
Proof.
  intros Hdata Hout Hmode Hheaders run. unfold run.
  rewrite (json_to_csv_flat_run _ _ _ _ out) by done.
  set (headers := extract_keys flatten_arrays data).
  destruct (write_rows_spec str_container json_dumps out headers
              flatten_arrays data) as (_ & Hrows & Hskipped).
  pose proof (write_rows_table out headers flatten_arrays data) as Htable.
  exists (written_rows (write_rows out headers flatten_arrays data).1).
  cbn [fst]. split_and!.
  - assert (∀ pre tail,
              Forall (λ e, is_output_event e = false) pre →
              Forall (table_event out (length headers)) tail →
              file_rows out
                (pre ++ [OpenWrite out; WriteRow out headers]
                   ++ (write_rows out headers flatten_arrays data).1 ++ tail)
                None
              = Some (headers
                        :: written_rows
                             (write_rows out headers flatten_arrays data).1
                        ++ written_rows tail)) as Hfile.
    { intros pre tail Hpre Htail.
      etrans; [apply (file_rows_opened out pre _ [headers] Hpre)|].
      rewrite (file_rows_table out (length headers)) by by apply Forall_app.
      by rewrite written_rows_app. }
    destruct flatten_arrays.
    + etrans;
        [apply (Hfile [PathExists json_file_path; OpenRead json_file_path;
                       PrintOut MsgFlattenMode] [_]); by repeat constructor|].
      by rewrite app_nil_r.
    + etrans;
        [apply (Hfile [PathExists json_file_path; OpenRead json_file_path]
                  [_]); by repeat constructor|].
      by rewrite app_nil_r.
  - unfold reported_rows. rewrite !omap_app.
    fold (reported_rows (write_rows out headers flatten_arrays data).1).
    rewrite (reported_rows_none (write_rows out headers flatten_arrays data).1).
    + by destruct flatten_arrays.
    + apply for_each_Forall. intros [| | | | | |item]; by repeat constructor.
  - rewrite !skipped_items_app, Hskipped, Hrows, length_fmap.
    replace (skipped_items [PathExists json_file_path; OpenRead json_file_path])
      with (@nil json) by done.
    assert (skipped_items
              (if flatten_arrays then [PrintOut MsgFlattenMode] else []) = [])
      as -> by by destruct flatten_arrays.
    cbn [app]. rewrite app_nil_r. apply length_objects_non_objects.
Qed.

End runs.

Lemma input_not_an_array_is_fatal_witness :
  let run :=
    main (λ _, "") (λ _, "") (λ _ s, Ok ("in" +:+ s))
      (Arguments "in.json" None false false)
      (Parsed (JObj [("a", JArr [JInt 1])])) in
  run.2 = 1 ∧
  Forall (λ e, is_output_event e = false) run.1 ∧
  ∃ log m, run.1 = log ++ [PrintErr m].
Proof.
  apply (input_not_an_array_is_fatal (λ _, "") (λ _, "")
           (λ _ s, Ok ("in" +:+ s)) (Arguments "in.json" None false false)
           (Parsed (JObj [("a", JArr [JInt 1])]))).
  intros data. discriminate.
Defined.

Lemma transposed_run_of_records_witness :
  let items := [[("id", JInt 7); ("xs", JArr [JInt 1; JInt 2])]] in
  let rows := objects (items ≫= transpose_item) in
  let headers := extract_all_keys (items ≫= transpose_item) in
  let run :=
    json_to_csv (λ _, "") (λ _, "") (λ _ s, Ok ("in" +:+ s))
      (Parsed (JArr (JObj <$> items))) "in.json" None false false in
  run.2 = Ok tt ∧
  file_rows "in.csv" run.1 None
  = Some ((create_hierarchical_headers headers).1
            :: (create_hierarchical_headers headers).2
            :: (hierarchical_cells (λ _, "") headers <$> rows)) ∧
  reported_rows run.1 = [length rows] ∧
  length items ≤ length rows.
Proof.
  apply (transposed_run_of_records (λ _, "") (λ _, "")
           (λ _ s, Ok ("in" +:+ s)) "in.json" "in.csv" None false false
           [[("id", JInt 7); ("xs", JArr [JInt 1; JInt 2])]]);
    [done|reflexivity|reflexivity|vm_compute; done].
Defined.


Lemma transposed_run_of_mixed_dataset_witness :
  let args := Arguments "in.json" (Some "out.csv") false true in
  let data := [JObj [("a", JInt 1)]; JStr "x"] in
  let run :=
    json_to_csv (λ _, "") (λ _, "") (λ _ _, Raise ValueError)
      (Parsed (JArr data)) "in.json" (Some "out.csv") false true in
  run.2 = Raise AttributeError ∧
  Forall (λ e, is_output_event e = false) run.1 ∧
  (main (λ _, "") (λ _, "") (λ _ _, Raise ValueError) args
     (Parsed (JArr data))).2 = 1 ∧
  Forall (λ e, is_output_event e = false)
    (main (λ _, "") (λ _, "") (λ _ _, Raise ValueError) args
       (Parsed (JArr data))).1.
Proof.
  apply (transposed_run_of_mixed_dataset (λ _, "") (λ _, "")
           (λ _ _, Raise ValueError)
           (Arguments "in.json" (Some "out.csv") false true)
           (JObj [("a", JInt 1)]) [JStr "x"]); reflexivity.
Defined.

Lemma detection_acts_as_transpose_witness :
  let data := [JObj [("id", JInt 7); ("xs", JArr [JInt 1; JInt 2])]] in
  let detected :=
    json_to_csv (λ _, "") (λ _, "") (λ _ s, Ok ("in" +:+ s))
      (Parsed (JArr data)) "in.json" None false false in
  let asked :=
    json_to_csv (λ _, "") (λ _, "") (λ _ s, Ok ("in" +:+ s))
      (Parsed (JArr data)) "in.json" (Some "in.csv") false true in
  detected.1 = take 2 asked.1 ++ PrintOut MsgAutoDetected :: drop 2 asked.1 ∧
  detected.2 = asked.2 ∧
  ((None : option string) = None → Ok ("in" +:+ ".csv") = Ok "in.csv").
Proof.
  apply (detection_acts_as_transpose (λ _, "") (λ _, "")
           (λ _ s, Ok ("in" +:+ s)) "in.json" "in.csv" None
           [JObj [("id", JInt 7); ("xs", JArr [JInt 1; JInt 2])]]);
    reflexivity.
Defined.

Lemma absent_key_gives_empty_cell_witness :
  dict_writer_row ["a"; "b.c"]
    (flatten_row (λ _, "") ["a"; "b.c"] [("a", JInt 1); ("b", JObj [])]) !! 1
  = Some "".
Proof.
  apply (absent_key_gives_empty_cell (λ _, "") (λ _, "") true ["a"; "b.c"]
           [("a", JInt 1); ("b", JObj [])] 1 "b.c"); reflexivity.
Defined.

Lemma reported_rows_count_skipped_elements_witness :
  let data := [JObj [("a", JInt 1)]; JStr "x"; JObj [("b", JNull)]] in
  let run :=
    json_to_csv (λ _, "") (λ _, "") (λ _ _, Raise ValueError)
      (Parsed (JArr data)) "in.json" (Some "out.csv") false false in
  ∃ data_rows,
    file_rows "out.csv" run.1 None = Some (["a"; "b"] :: data_rows) ∧
    reported_rows run.1 = [3] ∧
    3 = length data_rows + length (skipped_items run.1).
Proof.
  apply (reported_rows_count_skipped_elements (λ _, "") (λ _, "")
           (λ _ _, Raise ValueError) "in.json" "out.csv" (Some "out.csv") false
           [JObj [("a", JInt 1)]; JStr "x"; JObj [("b", JNull)]]);
    [done|reflexivity|reflexivity|done].
Defined.

(** ** The header and the order of the records *)

Lemma gather_ext (data data' : list json) (flatten_mode flatten_mode' : bool) :
  (∀ k, (∃ item, item ∈ data ∧ k ∈ record_keys flatten_mode item)
        ↔ ∃ item, item ∈ data' ∧ k ∈ record_keys flatten_mode' item) →
  gather flatten_mode data ∅ = gather flatten_mode' data' ∅.
Proof.
  intros Hsame. apply set_eq. intros k. rewrite !gather_elem_of.
  split; (intros [?|Hk]; [by left|right]); by apply Hsame.
Qed.

(** X20.  Only the first element has a say in the order of the columns:
    rearranging the elements behind it leaves the header as it is, in plain
    and in flatten mode. *)
Theorem header_ignores_order_of_later_records (flatten_mode : bool)
    (first : json) (rest rest' : list json) :
  rest ≡ₚ rest' →
  extract_keys flatten_mode (first :: rest)
  = extract_keys flatten_mode (first :: rest').
Proof.
  intros Hperm. rewrite !extract_keys_shape. do 2 f_equal.
  apply gather_ext. intros k.
  split; intros (item & Hin & Hk); exists item; (split; [|done]).
  - by rewrite <-Hperm.
  - by rewrite Hperm.
Qed.

Lemma header_ignores_order_of_later_records_witness :
  extract_keys true
    [JObj [("b", JInt 1)]; JObj [("z", JNull)]; JStr "x";
     JObj [("a", JObj [("k", JInt 2)])]]
  = extract_keys true
      [JObj [("b", JInt 1)]; JObj [("a", JObj [("k", JInt 2)])];
       JObj [("z", JNull)]; JStr "x"].
Proof.
  apply (header_ignores_order_of_later_records true (JObj [("b", JInt 1)])
           [JObj [("z", JNull)]; JStr "x"; JObj [("a", JObj [("k", JInt 2)])]]
           [JObj [("a", JObj [("k", JInt 2)])]; JObj [("z", JNull)]; JStr "x"]).
  apply (Permutation_app_comm [_; _] [_]).
Defined.

Lemma record_keys_scalar_record (item : list (string * json)) :
  NoDup item.*1 →
  Forall (λ kv, is_scalar kv.2 = true) item →
  record_keys true (JObj item) = record_keys false (JObj item).
Proof.
  intros Hnd Hscalar. cbn [record_keys]. f_equal.
  rewrite flatten_as_dict, flat_items_obj.
  assert (item ≫= (λ kv, flat_items kv.2 (dict_child_key "" "." kv.1)) = item)
    as ->; [|by apply dict_of_items_fresh].
  clear Hnd. induction Hscalar as [|[k x] item Hx _ IH]; [done|].
  rewrite bind_cons, IH. by destruct x.
Qed.

(** X21.  On a dataset without nesting the two extractions agree: when the
    values of every object are scalars, under distinct keys, flatten mode
    finds the columns of plain mode, in the same order. *)
Theorem flat_dataset_same_header_in_both_modes (data : list json) :
  Forall (λ record, ∀ item, record = JObj item →
            NoDup item.*1 ∧ Forall (λ kv, is_scalar kv.2 = true) item) data →
  extract_all_keys_advanced data = extract_all_keys data.
Proof.
  intros Hflat.
  assert (∀ record, record ∈ data →
            record_keys true record = record_keys false record) as Hkeys.
  { intros record Hin. rewrite Forall_forall in Hflat.
    destruct record as [| | | | | |item]; try done.
    destruct (Hflat _ Hin item eq_refl). by apply record_keys_scalar_record. }
  destruct data as [|first rest]; [done|].
  change (extract_keys true (first :: rest) = extract_keys false (first :: rest)).
  rewrite !extract_keys_shape, (Hkeys first) by left. do 2 f_equal.
  apply gather_ext. intros k.
  split; intros (record & Hin & Hk); exists record; (split; [done|]).
  - by rewrite <-Hkeys.
  - by rewrite Hkeys.
Qed.

Lemma flat_dataset_same_header_in_both_modes_witness :
  extract_all_keys_advanced
    [JObj [("b", JInt 1); ("a", JNull)]; JStr "x"; JObj [("c", JBool true)]]
  = extract_all_keys
      [JObj [("b", JInt 1); ("a", JNull)]; JStr "x"; JObj [("c", JBool true)]].
Proof.
  apply flat_dataset_same_header_in_both_modes.
  repeat (apply Forall_cons; split); [..|apply Forall_nil_2];
    intros item Heq; try discriminate Heq; injection Heq as <-;
    (split; [apply (bool_decide_unpack _); by vm_compute|by repeat constructor]).
Defined.
